(** * kban: the card board of a Kanban server, and its repositioning step

    A shallow embedding of the Go sources [main.go], [s3.go] and the file
    that declares [Card] and [Board].  The three mutating HTTP handlers are
    closures inside [main]; each of them is split here into the pure
    transformation of [board.Cards] it performs (section "Board
    transformations") and the load / mutate / save cycle around it (section
    "Handlers"), which runs in a small state monad over the object store. *)

From Stdlib Require Import ZArith List String Bool Lia Permutation Sorted.
From Stdlib Require Import DecimalString DecimalZ DecimalPos.
Import ListNotations.

#[local] Open Scope string_scope.
#[local] Open Scope list_scope.
#[local] Open Scope Z_scope.

(** ** Go's [int] *)

Module GoInt.

(** [int] is 64 bits wide on the platforms the server is built for.  The
    one addition of the program that can leave the range is [maxPos + 1]
    of the create handler; slice indices and loop counters stay below
    [len(board.Cards)]. *)
Definition bits : Z := 64.
Definition max_int : Z := 2 ^ (bits - 1) - 1.
Definition min_int : Z := - 2 ^ (bits - 1).

(** Two's complement wrap-around of a mathematical integer. *)
Definition wrap (z : Z) : Z := (z - min_int) mod 2 ^ bits + min_int.

(** Go's [+] on [int]. *)
Definition add (a b : Z) : Z := wrap (a + b).

Definition in_range (z : Z) : Prop := min_int <= z <= max_int.

End GoInt.

(** [len(s)] as an [int]. *)
Definition len {A : Type} (l : list A) : Z := Z.of_nat (List.length l).

(** ** Data model *)

Record Card : Type := mkCard
  { ID : string;
    Title : string;
    Description : string;
    Status : string;      (* ToDo, Doing, Hold, Done *)
    Position : Z }.

Record Board : Type := mkBoard { Cards : list Card }.

(** Field assignments [c.F = v]. *)
Definition setID (c : Card) (v : string) : Card :=
  mkCard v (Title c) (Description c) (Status c) (Position c).
Definition setTitle (c : Card) (v : string) : Card :=
  mkCard (ID c) v (Description c) (Status c) (Position c).
Definition setDescription (c : Card) (v : string) : Card :=
  mkCard (ID c) (Title c) v (Status c) (Position c).
Definition setStatus (c : Card) (v : string) : Card :=
  mkCard (ID c) (Title c) (Description c) v (Position c).
Definition setPosition (c : Card) (v : Z) : Card :=
  mkCard (ID c) (Title c) (Description c) (Status c) v.

(** A request body as [json.Decoder.Decode] sees it: a JSON object in which
    each of the five keys is present or not ([null] counts as absent).  A
    body that is not such an object (bad syntax, a key of the wrong type,
    a number that is no [int]) makes [Decode] fail; the handlers receive
    [None] for it. *)
Record CardJSON : Type := mkCardJSON
  { jID : option string;
    jTitle : option string;
    jDescription : option string;
    jStatus : option string;
    jPosition : option Z }.

Definition orZero {A : Type} (zero : A) (o : option A) : A :=
  match o with Some v => v | None => zero end.

(** [Decode(&card)] on a zero [card]: absent keys leave the zero value. *)
Definition decodeCard (j : CardJSON) : Card :=
  mkCard (orZero "" (jID j)) (orZero "" (jTitle j))
         (orZero "" (jDescription j)) (orZero "" (jStatus j))
         (orZero 0 (jPosition j)).

(** ** Board transformations *)

(** What a handler's in-memory part comes to. *)
Inductive Outcome : Type :=
| Done (cards : list Card)
| CardNotFound
| RuntimePanic.

(** [s[i]] on a slice: an index outside [0, len(s)) panics ([None]). *)
Definition index (cards : list Card) (i : Z) : option Card :=
  if i <? 0 then None else nth_error cards (Z.to_nat i).

Fixpoint findCardIndexFrom (i : Z) (cards : list Card) (id : string) : Z :=
  match cards with
  | [] => -1
  | c :: rest =>
      if (ID c =? id)%string then i else findCardIndexFrom (i + 1) rest id
  end.

Definition findCardIndex (cards : list Card) (id : string) : Z :=
  findCardIndexFrom 0 cards id.

(** *** Identifiers *)

(** [generateID] (lines 239-242): the reading [unixNano] of the clock, an
    [int64], printed by [fmt.Sprintf("%d", ...)]: decimal digits without
    leading zeros, after a minus sign for a negative number. *)
Definition generateID (unixNano : Z) : string :=
  NilZero.string_of_int (Z.to_int unixNano).

(** *** Create (POST /api/card) *)

(** The loop of lines 88-93, started with [maxPos]. *)
Fixpoint maxPosLoop (status : string) (cards : list Card) (maxPos : Z) : Z :=
  match cards with
  | [] => maxPos
  | c :: rest =>
      maxPosLoop status rest
        (if (Status c =? status)%string && (Position c >? maxPos)
         then Position c else maxPos)
  end.

(** Lines 86-95; [newID] is what [generateID()] returned.  The result is the
    card that is sent back and the new [board.Cards]. *)
Definition createCards (newID : string) (card : Card) (cards : list Card)
  : Card * list Card :=
  let card := setID card newID in
  let maxPos := maxPosLoop (Status card) cards (-1) in
  let card := setPosition card (GoInt.add maxPos 1) in
  (card, cards ++ [card]).

(** *** Update (PUT /api/card/{id}) *)

(** Lines 130-135: the four assignments to [board.Cards[i]]; the guard of
    line 133 holds for every [int]. *)
Definition overwrite (c update : Card) : Card :=
  let c := setTitle c (Title update) in
  let c := setDescription c (Description update) in
  let c := setStatus c (Status update) in
  if negb (Position update =? 0) || (Position update =? 0)
  then setPosition c (Position update) else c.

(** The first loop, lines 126-139: the first card whose ID is [id] has its
    four fields overwritten; the loop yields [oldStatus], [oldPosition] and
    the mutated slice, or [None] when [updated] stays false. *)
Fixpoint replaceFields (id : string) (update : Card) (cards : list Card)
  : option (string * Z * list Card) :=
  match cards with
  | [] => None
  | c :: rest =>
      if (ID c =? id)%string then
        Some (Status c, Position c, overwrite c update :: rest)
      else
        match replaceFields id update rest with
        | Some (oldStatus, oldPosition, rest') =>
            Some (oldStatus, oldPosition, c :: rest')
        | None => None
        end
  end.

(** Lines 153-161. *)
Definition others (cards : list Card) (id : string) (status : string)
  : list Card :=
  filter (fun cc => negb (ID cc =? id)%string && (Status cc =? status)%string)
    cards.

(** Lines 163-169, with [n = len(others)]. *)
Definition clampPos (pos : Z) (n : Z) : Z :=
  let pos := if pos <? 0 then 0 else pos in
  if pos >? n then n else pos.

(** The slice expressions [s[:hi]] and [s[lo:]].  Go panics when the bound
    is negative or beyond the slice ([None]); for [s[:hi]] the limit is
    [cap(s)], which [append] chooses and which is at least [len(s)]: the
    model lets the expression fail from [len(s)] on, so that what does not
    fail here does not panic there. *)
Definition sliceTo (s : list Card) (hi : Z) : option (list Card) :=
  if (hi <? 0) || (hi >? len s) then None
  else Some (firstn (Z.to_nat hi) s).

Definition sliceFrom (s : list Card) (lo : Z) : option (list Card) :=
  if (lo <? 0) || (lo >? len s) then None
  else Some (skipn (Z.to_nat lo) s).

(** Lines 173-178: [None] when one of the two slice expressions panics. *)
Definition buildNewOrder (oth : list Card) (pos : Z) (movingCard : Card)
  : option (list Card) :=
  match sliceTo oth pos with
  | None => None
  | Some front =>
      let newOrder := front ++ [movingCard] in
      if pos <? len oth then
        match sliceFrom oth pos with
        | None => None
        | Some back => Some (newOrder ++ back)
        end
      else Some newOrder
  end.

(** The inner loop of lines 181-186: every card whose ID is [ncID] gets
    position [i] and the target status. *)
Definition assign (i : Z) (status : string) (ncID : string)
  (cards : list Card) : list Card :=
  map (fun c => if (ID c =? ncID)%string
                then setStatus (setPosition c i) status else c) cards.

(** The outer loop of lines 180-187, from index [i] on. *)
Fixpoint reassign (i : Z) (newOrder : list Card) (status : string)
  (cards : list Card) : list Card :=
  match newOrder with
  | [] => cards
  | nc :: rest => reassign (i + 1) rest status (assign i status (ID nc) cards)
  end.

(** Lines 147-188, on the slice the first loop left. *)
Definition reposition (cards : list Card) (id : string) (update : Card)
  : option (list Card) :=
  let moveIdx := findCardIndex cards id in
  if (moveIdx =? -1) then Some cards
  else
    let oth := others cards id (Status update) in
    let pos := clampPos (Position update) (len oth) in
    match index cards moveIdx with
    | None => None
    | Some movingCard =>
        let movingCard := setStatus movingCard (Status update) in
        match buildNewOrder oth pos movingCard with
        | None => None
        | Some newOrder => Some (reassign 0 newOrder (Status update) cards)
        end
    end.

(** The condition of line 146. *)
Definition moved (oldStatus : string) (oldPosition : Z) (update : Card)
  : bool :=
  negb (oldStatus =? Status update)%string
  || negb (oldPosition =? Position update).

(** Lines 123-189. *)
Definition updateCards (id : string) (update : Card) (cards : list Card)
  : Outcome :=
  match replaceFields id update cards with
  | None => CardNotFound
  | Some (oldStatus, oldPosition, cards) =>
      if moved oldStatus oldPosition update then
        match reposition cards id update with
        | Some cards => Done cards
        | None => RuntimePanic
        end
      else Done cards
  end.

(** *** Delete (DELETE /api/card/{id}) *)

(** Lines 210-222. *)
Definition deleteCards (id : string) (cards : list Card) : Outcome :=
  let countBefore := len cards in
  let newCards := filter (fun c => negb (ID c =? id)%string) cards in
  if (len newCards =? countBefore) then CardNotFound else Done newCards.

(** ** The object store *)

(** The bytes of the object [board.json], taken up to what [json.Unmarshal]
    makes of them: a board, or an error.  [json.Marshal] of a [Board] has no
    failing case, and what it writes parses back to the board it was given. *)
Inductive Document : Type :=
| Parses (b : Board)
| Garbled.

(** The calls the program makes on the S3 client, in order.  One call may
    reach the store as several HTTP requests: the client that
    [NewS3Client] builds keeps the SDK's retryer, which sends a request
    again after a failure it takes for transient.  The log counts calls,
    not requests. *)
Inductive Call : Type :=
| GetObject
| PutObject (b : Board).

Record S3 : Type := mkS3
  { object : option Document;     (* [None]: the key does not exist *)
    calls : list Call }.

(** What can go wrong outside the program during one request (for a call
    on the client: after its retries), and the reading of the clock,
    [time.Now().UnixNano()], that [generateID] prints. *)
Inductive Fault : Type :=
| APIError (code : string)        (* a [smithy.APIError] with this code *)
| Unreachable                     (* timeout, network, anything else *)
| BodyUnreadable.                 (* [ioutil.ReadAll] fails *)

Record Env : Type := mkEnv
  { getFault : option Fault;
    putFault : bool;
    now : Z }.

Inductive GetObjectOutput : Type :=
| GetOk (data : option Document)  (* [None]: the body cannot be read *)
| GetAPIError (code : string)
| GetError.

(** State monad over the store. *)
Definition M (A : Type) : Type := S3 -> A * S3.

Definition ret {A : Type} (a : A) : M A := fun s => (a, s).

Definition bind {A B : Type} (m : M A) (k : A -> M B) : M B :=
  fun s => let (a, s') := m s in k a s'.

Notation "x <- m ;; k" := (bind m (fun x => k))
  (at level 61, m at next level, right associativity).

Definition record (c : Call) : M unit :=
  fun s => (tt, mkS3 (object s) (calls s ++ [c])).

(** One [GetObject] call and what it returns. *)
Definition s3GetObject (env : Env) : M GetObjectOutput :=
  _ <- record GetObject ;;
  fun s =>
    (match getFault env, object s with
     | Some (APIError code), _ => GetAPIError code
     | Some Unreachable, _ => GetError
     | _, None => GetAPIError "NoSuchKey"
     | Some BodyUnreadable, Some _ => GetOk None
     | None, Some d => GetOk (Some d)
     end, s).

(** One [PutObject] call.  [true]: the call returned an error, and the
    object is as it was. *)
Definition s3PutObject (env : Env) (b : Board) : M bool :=
  _ <- record (PutObject b) ;;
  fun s =>
    if putFault env then (true, s)
    else (false, mkS3 (Some (Parses b)) (calls s)).

(** The four [fmt.Errorf] of [s3.go] that the handlers can meet. *)
Inductive Error : Type :=
| ErrLoading      (* error loading board from S3 *)
| ErrReading      (* error reading board data *)
| ErrDecoding     (* error decoding board json *)
| ErrSaving.      (* error saving board to S3 *)

Definition LoadBoard (env : Env) : M (Error + Board) :=
  resp <- s3GetObject env ;;
  ret (match resp with
       | GetAPIError code =>
           if ((code =? "NoSuchKey") || (code =? "NotFound"))%string
           then inr (mkBoard [])
           else inl ErrLoading
       | GetError => inl ErrLoading
       | GetOk None => inl ErrReading
       | GetOk (Some Garbled) => inl ErrDecoding
       | GetOk (Some (Parses board)) => inr board
       end).

Definition SaveBoard (env : Env) (board : Board) : M (option Error) :=
  failed <- s3PutObject env board ;;
  ret (if failed then Some ErrSaving else None).

(** ** Handlers *)

Inductive Payload : Type :=
| Empty
| Text (s : string)
| CardPayload (c : Card)
| BoardPayload (b : Board).

(** A response, or none when the handler's goroutine panicked. *)
Inductive Response : Type :=
| Reply (code : Z) (payload : Payload)
| Aborted.

(** GET /api/board *)
Definition getBoard (env : Env) : M Response :=
  r <- LoadBoard env ;;
  match r with
  | inl _ => ret (Reply 500 (Text "Failed to load board"))
  | inr board => ret (Reply 200 (BoardPayload board))
  end.

(** POST /api/card; [reqBody] is [None] when [Decode] fails. *)
Definition postCard (env : Env) (reqBody : option CardJSON) : M Response :=
  match reqBody with
  | None => ret (Reply 400 Empty)
  | Some j =>
      let card := decodeCard j in
      r <- LoadBoard env ;;
      match r with
      | inl _ => ret (Reply 500 Empty)
      | inr board =>
          let (card, cards) :=
            createCards (generateID (now env)) card (Cards board) in
          e <- SaveBoard env (mkBoard cards) ;;
          match e with
          | Some _ => ret (Reply 500 Empty)
          | None => ret (Reply 200 (CardPayload card))
          end
      end
  end.

(** What follows the in-memory part of PUT and DELETE. *)
Definition finish (env : Env) (o : Outcome) : M Response :=
  match o with
  | CardNotFound => ret (Reply 404 Empty)
  | RuntimePanic => ret Aborted
  | Done cards =>
      e <- SaveBoard env (mkBoard cards) ;;
      match e with
      | Some _ => ret (Reply 500 Empty)
      | None => ret (Reply 204 Empty)
      end
  end.

(** PUT /api/card/{id} *)
Definition putCard (env : Env) (id : string) (reqBody : option CardJSON)
  : M Response :=
  match reqBody with
  | None => ret (Reply 400 Empty)
  | Some j =>
      let update := decodeCard j in
      r <- LoadBoard env ;;
      match r with
      | inl _ => ret (Reply 500 Empty)
      | inr board => finish env (updateCards id update (Cards board))
      end
  end.

(** DELETE /api/card/{id} *)
Definition deleteCard (env : Env) (id : string) : M Response :=
  r <- LoadBoard env ;;
  match r with
  | inl _ => ret (Reply 500 Empty)
  | inr board => finish env (deleteCards id (Cards board))
  end.

(** ** Columns and the dense ordering *)

(** The cards holding [status], in storage order. *)
Definition column (status : string) (cards : list Card) : list Card :=
  filter (fun c => (Status c =? status)%string) cards.

(** The positions of a list of cards are exactly [0 .. k-1], each once. *)
Definition dense (col : list Card) : Prop :=
  NoDup (map Position col) /\
  forall p, In p (map Position col) <-> 0 <= p < len col.

Definition dense_board (cards : list Card) : Prop :=
  forall status, dense (column status cards).

(** All IDs of the board differ. *)
Definition unique_ids (cards : list Card) : Prop := NoDup (map ID cards).

(** The store holds the board [cards]: as the object, or, for the empty
    board, as no object at all. *)
Definition holds (s : S3) (cards : list Card) : Prop :=
  object s = Some (Parses (mkBoard cards)) \/ (object s = None /\ cards = []).

(** Boards the API can build from nothing; a create step takes an
    identifier that is not on the board yet (the clock has moved on since
    the card that got it) and a slice that can still grow. *)
Inductive reachable : list Card -> Prop :=
| reach_empty : reachable []
| reach_create cards newID j :
    reachable cards ->
    ~ In newID (map ID cards) ->
    len cards < GoInt.max_int ->
    reachable (snd (createCards newID (decodeCard j) cards))
| reach_update cards id j cards' :
    reachable cards ->
    updateCards id (decodeCard j) cards = Done cards' ->
    reachable cards'
| reach_delete cards id cards' :
    reachable cards ->
    deleteCards id cards = Done cards' ->
    reachable cards'.

(** The same without the two steps that take a card out of a column:
    no delete, and only updates that keep the card's status. *)
Inductive reachable_in_place : list Card -> Prop :=
| rip_empty : reachable_in_place []
| rip_create cards newID j :
    reachable_in_place cards ->
    ~ In newID (map ID cards) ->
    len cards < GoInt.max_int ->
    reachable_in_place (snd (createCards newID (decodeCard j) cards))
| rip_update cards id j cards' oldStatus oldPosition cards1 :
    reachable_in_place cards ->
    replaceFields id (decodeCard j) cards
      = Some (oldStatus, oldPosition, cards1) ->
    oldStatus = Status (decodeCard j) ->
    updateCards id (decodeCard j) cards = Done cards' ->
    reachable_in_place cards'.

(** ** Running examples *)

Module Examples.

(** A decoded request body. *)
Definition req (status : string) (pos : Z) : Card :=
  mkCard "" "t" "d" status pos.

(** The request body [{"title": id, "status": status}]. *)
Definition newCard (id status : string) : CardJSON :=
  mkCardJSON None (Some id) None (Some status) None.

(** The request body of a move: all four fields of a PUT. *)
Definition move (title status : string) (pos : Z) : CardJSON :=
  mkCardJSON None (Some title) (Some "") (Some status) (Some pos).

Definition cardsOf (o : Outcome) : list Card :=
  match o with Done cards => cards | _ => [] end.

(** The scenario board of the specification, stored in creation order. *)
Definition abc : list Card :=
  [mkCard "A" "A" "" "ToDo" 0; mkCard "B" "B" "" "ToDo" 1;
   mkCard "C" "C" "" "ToDo" 2].

(** Three cards created in one column, in the order A, B, C. *)
Definition createdA : list Card :=
  snd (createCards "A" (decodeCard (newCard "A" "ToDo")) []).
Definition createdAB : list Card :=
  snd (createCards "B" (decodeCard (newCard "B" "ToDo")) createdA).
Definition createdABC : list Card :=
  snd (createCards "C" (decodeCard (newCard "C" "ToDo")) createdAB).

(** Card B deleted from the column A, B, C. *)
Definition deletedB : list Card := cardsOf (deleteCards "B" createdABC).

(** C dragged to the top of the column A, B, C. *)
Definition movedC : list Card :=
  cardsOf (updateCards "C" (decodeCard (move "C" "ToDo" 0)) createdABC).

(** The same three cards created in the order B, A, C, then A dragged to
    the top: the column reads A, B, C while the slice holds B, A, C. *)
Definition createdB : list Card :=
  snd (createCards "B" (decodeCard (newCard "B" "ToDo")) []).
Definition createdBA : list Card :=
  snd (createCards "A" (decodeCard (newCard "A" "ToDo")) createdB).
Definition createdBAC : list Card :=
  snd (createCards "C" (decodeCard (newCard "C" "ToDo")) createdBA).
Definition bac : list Card :=
  cardsOf (updateCards "A" (decodeCard (move "A" "ToDo" 0)) createdBAC).

(** Two creates at one reading of the clock, then a third card. *)
Definition twins : list Card :=
  snd (createCards (generateID 8) (decodeCard (newCard "C" "ToDo"))
         (snd (createCards (generateID 7) (decodeCard (newCard "B" "ToDo"))
                 (snd (createCards (generateID 7)
                         (decodeCard (newCard "A" "ToDo")) []))))).

(** Two stored boards outside the data model's positions: a card below
    zero, and a card at the largest [int]. *)
Definition belowZero : list Card := [mkCard "X" "X" "" "ToDo" (-3)].
Definition atMaxInt : list Card := [mkCard "X" "X" "" "ToDo" GoInt.max_int].

End Examples.

(** ** Definitions used to state the properties *)

(** What the two nested loops of lines 180-187 do to one card of the board:
    [reassign] is [map (relabel ...)] (lemma [reassign_map] below). *)
Fixpoint relabel (i : Z) (newOrder : list Card) (status : string) (c : Card)
  : Card :=
  match newOrder with
  | [] => c
  | nc :: rest =>
      relabel (i + 1) rest status
        (if (ID c =? ID nc)%string
         then setStatus (setPosition c i) status else c)
  end.

(** The cards of [l] with positions [i], [i+1], ... in that order. *)
Fixpoint numbered (i : Z) (l : list Card) : list Card :=
  match l with
  | [] => []
  | c :: rest => setPosition c i :: numbered (i + 1) rest
  end.

(** What [buildNewOrder] returns when it returns (lemma
    [buildNewOrder_clamped] below): [movingCard] put into [oth] at [pos]. *)
Definition spliced (oth : list Card) (pos : Z) (movingCard : Card)
  : list Card :=
  let newOrder := firstn (Z.to_nat pos) oth ++ [movingCard] in
  if pos <? len oth then newOrder ++ skipn (Z.to_nat pos) oth else newOrder.

(** The sequence [newOrder] the update handler builds on the slice [cards]
    left by its first loop, [movingCard] being [board.Cards[moveIdx]]. *)
Definition newOrderOf (cards : list Card) (id : string) (update : Card)
  (movingCard : Card) : list Card :=
  let oth := others cards id (Status update) in
  spliced oth (clampPos (Position update) (len oth))
    (setStatus movingCard (Status update)).

(** The largest position of a list of cards, if it has any. *)
Definition maxPositionOf (col : list Card) : option Z :=
  match col with
  | [] => None
  | c :: rest => Some (fold_left Z.max (map Position rest) (Position c))
  end.

(** The append position in the words of the specification: one more than
    the largest position of the column, 0 for an empty column. *)
Definition appendPosition (col : list Card) : Z :=
  match maxPositionOf col with
  | Some p => p + 1
  | None => 0
  end.

(** *** The repositioning step in the words of the specification *)

(** Stable insertion sort by ascending position: ties keep their order. *)
Fixpoint insertByPosition (c : Card) (l : list Card) : list Card :=
  match l with
  | [] => [c]
  | x :: rest =>
      if Position c <=? Position x then c :: x :: rest
      else x :: insertByPosition c rest
  end.

Definition sortByPosition (l : list Card) : list Card :=
  fold_right insertByPosition [] l.

(** Steps 2 to 5 of the specification's algorithm: the other cards of the
    target status, ordered by their current ascending position (ties by
    their existing order); the requested position clamped into
    [0, len(others)]; the moving card spliced in; position = index.  It
    differs from [updateCards] in the one call to [sortByPosition]. *)
Definition specUpdateCards (id : string) (update : Card) (cards : list Card)
  : Outcome :=
  match replaceFields id update cards with
  | None => CardNotFound
  | Some (oldStatus, oldPosition, cards) =>
      if moved oldStatus oldPosition update then
        match index cards (findCardIndex cards id) with
        | None => RuntimePanic
        | Some movingCard =>
            let oth := sortByPosition (others cards id (Status update)) in
            let pos := clampPos (Position update) (len oth) in
            match buildNewOrder oth pos
                    (setStatus movingCard (Status update)) with
            | None => RuntimePanic
            | Some newOrder =>
                Done (reassign 0 newOrder (Status update) cards)
            end
        end
      else Done cards
  end.

(** Ascending positions, the order the specification gives to "others". *)
Definition ascending (l : list Card) : Prop :=
  StronglySorted (fun a b => Position a <= Position b) l.

(** One request, [s] being the store before it and [r] what the handler
    returned: the handler has made no call on the client, or one
    [GetObject] call, or one [GetObject] call followed by one [PutObject]
    call; the object is as it was unless that write succeeded, and then it
    is the board that was written. *)
Definition one_cycle (env : Env) (s : S3) (r : Response * S3) : Prop :=
  (calls (snd r) = calls s /\ object (snd r) = object s) \/
  (calls (snd r) = calls s ++ [GetObject] /\ object (snd r) = object s) \/
  (exists b,
     calls (snd r) = calls s ++ [GetObject; PutObject b] /\
     object (snd r) = if putFault env then object s else Some (Parses b)).

(** No two cards of one status share a position. *)
Definition positions_distinct (cards : list Card) : Prop :=
  forall status, NoDup (map Position (column status cards)).

(** No card has a negative position. *)
Definition positions_nonneg (cards : list Card) : Prop :=
  forall c, In c cards -> 0 <= Position c.

(** * Properties *)

(** ** Arithmetic on [int] *)

Lemma wrap_in_range z : GoInt.in_range z -> GoInt.wrap z = z.
Proof.
  unfold GoInt.in_range, GoInt.wrap, GoInt.min_int, GoInt.max_int, GoInt.bits.
  simpl; intros H. rewrite Z.mod_small; lia.
Qed.

Lemma add_no_overflow a b :
  GoInt.in_range (a + b) -> GoInt.add a b = a + b.
Proof. apply wrap_in_range. Qed.

(** ** Records and lengths *)

Lemma card_eta c :
  mkCard (ID c) (Title c) (Description c) (Status c) (Position c) = c.
Proof. destruct c; reflexivity. Qed.

Lemma setStatus_same c : setStatus c (Status c) = c.
Proof. apply card_eta. Qed.

Lemma overwrite_eq c u :
  overwrite c u
  = mkCard (ID c) (Title u) (Description u) (Status u) (Position u).
Proof. unfold overwrite; destruct (Position u =? 0); reflexivity. Qed.

Lemma len_app {A : Type} (l1 l2 : list A) : len (l1 ++ l2) = len l1 + len l2.
Proof. unfold len; rewrite length_app; lia. Qed.

Lemma len_cons {A : Type} (a : A) (l : list A) : len (a :: l) = 1 + len l.
Proof. unfold len; simpl List.length; lia. Qed.

Lemma len_nonneg {A : Type} (l : list A) : 0 <= len l.
Proof. unfold len; lia. Qed.

Lemma len_map {A B : Type} (f : A -> B) (l : list A) : len (map f l) = len l.
Proof. unfold len; now rewrite length_map. Qed.

(** ** The first loop of the update handler *)

Lemma replaceFields_None id u cards :
  replaceFields id u cards = None <-> ~ In id (map ID cards).
Proof.
  induction cards as [|c rest IH]; simpl.
  - tauto.
  - destruct (String.eqb_spec (ID c) id) as [E|E].
    + split; [discriminate | intros H; exfalso; apply H; now left].
    + destruct (replaceFields id u rest) as [[[s p] r]|].
      * split; [discriminate|].
        intros H; exfalso; apply H; right; apply Decidable.not_not.
        { destruct (in_dec string_dec id (map ID rest));
            [now left | now right]. }
        intros HH; apply IH in HH; discriminate.
      * split; [|reflexivity].
        intros _ [H|H]; [now apply E | revert H; now apply IH].
Qed.

Lemma replaceFields_Some id u cards s p cards1 :
  replaceFields id u cards = Some (s, p, cards1) ->
  exists pre c post,
    cards = pre ++ c :: post /\ ~ In id (map ID pre) /\ ID c = id /\
    s = Status c /\ p = Position c /\
    cards1 = pre ++ overwrite c u :: post.
Proof.
  revert cards1; induction cards as [|c rest IH]; simpl; intros cards1 H.
  - discriminate.
  - destruct (String.eqb_spec (ID c) id) as [E|E].
    + inversion H; subst. exists [], c, rest; simpl; tauto.
    + destruct (replaceFields id u rest) as [[[s' p'] r]|]; [|discriminate].
      inversion H; subst.
      destruct (IH r eq_refl)
        as (pre & c0 & post & -> & Hpre & Hid & Hs & Hp & ->).
      exists (c :: pre), c0, post; simpl; repeat split; auto.
      intros [F|F]; [now apply E | now apply Hpre].
Qed.

Lemma replaceFields_split id u pre c post :
  ~ In id (map ID pre) -> ID c = id ->
  replaceFields id u (pre ++ c :: post)
  = Some (Status c, Position c, pre ++ overwrite c u :: post).
Proof.
  intros Hpre Hid; induction pre as [|a pre IH]; simpl.
  - rewrite <- Hid, String.eqb_refl; reflexivity.
  - simpl in Hpre.
    destruct (String.eqb_spec (ID a) id) as [E|E]; [tauto|].
    rewrite IH by tauto. reflexivity.
Qed.

Lemma findCardIndexFrom_split i pre c post id :
  ~ In id (map ID pre) -> ID c = id ->
  findCardIndexFrom i (pre ++ c :: post) id = i + len pre.
Proof.
  revert i; induction pre as [|a pre IH]; simpl; intros i Hpre Hid.
  - rewrite <- Hid, String.eqb_refl. unfold len; simpl; lia.
  - destruct (String.eqb_spec (ID a) id) as [E|E]; [tauto|].
    rewrite IH by tauto. rewrite len_cons; lia.
Qed.

Lemma index_split pre c post : index (pre ++ c :: post) (len pre) = Some c.
Proof.
  unfold index, len.
  destruct (Z.ltb_spec (Z.of_nat (List.length pre)) 0) as [H|H]; [lia|].
  rewrite Nat2Z.id, nth_error_app2 by lia.
  now rewrite Nat.sub_diag.
Qed.

Lemma findCardIndex_split pre c post id :
  ~ In id (map ID pre) -> ID c = id ->
  findCardIndex (pre ++ c :: post) id = len pre.
Proof.
  intros; unfold findCardIndex; now rewrite findCardIndexFrom_split.
Qed.

(** ** Clamping and splicing *)

Lemma clampPos_range pos n : 0 <= n -> 0 <= clampPos pos n <= n.
Proof.
  intros Hn; unfold clampPos.
  destruct (Z.ltb_spec pos 0).
  - destruct (Z.gtb_spec 0 n); lia.
  - destruct (Z.gtb_spec pos n); lia.
Qed.

Lemma clampPos_low pos n : 0 <= n -> pos <= 0 -> clampPos pos n = 0.
Proof.
  intros Hn Hp; unfold clampPos.
  destruct (Z.ltb_spec pos 0).
  - destruct (Z.gtb_spec 0 n); lia.
  - destruct (Z.gtb_spec pos n); lia.
Qed.

Lemma clampPos_high pos n : 0 <= n -> n <= pos -> clampPos pos n = n.
Proof.
  intros Hn Hp; unfold clampPos.
  destruct (Z.ltb_spec pos 0).
  - destruct (Z.gtb_spec 0 n); lia.
  - destruct (Z.gtb_spec pos n); lia.
Qed.

Lemma clampPos_inside pos n : 0 <= pos <= n -> clampPos pos n = pos.
Proof.
  intros Hp; unfold clampPos.
  destruct (Z.ltb_spec pos 0); [lia|].
  destruct (Z.gtb_spec pos n); lia.
Qed.

Lemma spliced_splice oth pos mc :
  0 <= pos <= len oth ->
  spliced oth pos mc
  = firstn (Z.to_nat pos) oth ++ mc :: skipn (Z.to_nat pos) oth.
Proof.
  intros Hp; unfold spliced.
  destruct (Z.ltb_spec pos (len oth)) as [H|H].
  - now rewrite <- app_assoc.
  - assert (pos = len oth) as -> by lia.
    unfold len; rewrite Nat2Z.id, skipn_all. reflexivity.
Qed.

Lemma spliced_perm oth pos mc :
  0 <= pos <= len oth ->
  Permutation (spliced oth pos mc) (mc :: oth).
Proof.
  intros Hp; rewrite spliced_splice by assumption.
  symmetry; etransitivity; [|apply Permutation_middle].
  now rewrite firstn_skipn.
Qed.

Lemma spliced_len oth pos mc :
  0 <= pos <= len oth -> len (spliced oth pos mc) = len oth + 1.
Proof.
  intros Hp; unfold len.
  rewrite (Permutation_length (spliced_perm oth pos mc Hp)).
  simpl List.length; lia.
Qed.

Lemma spliced_has_moving oth pos mc :
  In (ID mc) (map ID (spliced oth pos mc)).
Proof.
  apply in_map. unfold spliced.
  destruct (pos <? len oth).
  - apply in_or_app; left. apply in_or_app; right; now left.
  - apply in_or_app; right; now left.
Qed.

(** Within [0, len(others)] neither slice expression panics, and the
    sequence built is the splice. *)
Lemma buildNewOrder_clamped oth pos mc :
  0 <= pos <= len oth -> buildNewOrder oth pos mc = Some (spliced oth pos mc).
Proof.
  intros Hp. unfold buildNewOrder, sliceTo, sliceFrom, spliced.
  destruct (Z.ltb_spec pos 0); [lia|].
  destruct (Z.gtb_spec pos (len oth)); [lia|]. cbn [orb].
  now destruct (pos <? len oth).
Qed.


(** ** The renumbering loop *)

Lemma reassign_map newOrder : forall i status cards,
  reassign i newOrder status cards = map (relabel i newOrder status) cards.
Proof.
  induction newOrder as [|nc rest IH]; simpl; intros i status cards.
  - now rewrite map_id.
  - rewrite IH; unfold assign; rewrite map_map. reflexivity.
Qed.

Lemma relabel_ID newOrder : forall i status c,
  ID (relabel i newOrder status c) = ID c.
Proof.
  induction newOrder as [|nc rest IH]; simpl; intros i status c; auto.
  rewrite IH; now destruct (ID c =? ID nc)%string.
Qed.

Lemma relabel_Title newOrder : forall i status c,
  Title (relabel i newOrder status c) = Title c.
Proof.
  induction newOrder as [|nc rest IH]; simpl; intros i status c; auto.
  rewrite IH; now destruct (ID c =? ID nc)%string.
Qed.

Lemma relabel_Description newOrder : forall i status c,
  Description (relabel i newOrder status c) = Description c.
Proof.
  induction newOrder as [|nc rest IH]; simpl; intros i status c; auto.
  rewrite IH; now destruct (ID c =? ID nc)%string.
Qed.

(** A card whose ID is not in [newOrder] is left as it is. *)
Lemma relabel_notin newOrder : forall i status c,
  ~ In (ID c) (map ID newOrder) -> relabel i newOrder status c = c.
Proof.
  induction newOrder as [|nc rest IH]; simpl; intros i status c H; auto.
  destruct (String.eqb_spec (ID c) (ID nc)) as [E|E].
  - exfalso; apply H; now left.
  - apply IH; tauto.
Qed.

(** A card whose ID is last met at index [len l1] of [newOrder] gets that
    index (shifted by the start [i]) and the target status. *)
Lemma relabel_at l1 : forall i status c nc l2,
  ID nc = ID c -> ~ In (ID c) (map ID l2) ->
  relabel i (l1 ++ nc :: l2) status c
  = setStatus (setPosition c (i + len l1)) status.
Proof.
  induction l1 as [|a l1 IH]; simpl; intros i status c nc l2 Hid Hl2.
  - rewrite Hid, String.eqb_refl, relabel_notin by assumption.
    unfold len; simpl; now rewrite Z.add_0_r.
  - rewrite len_cons.
    destruct (ID c =? ID a)%string.
    + rewrite (IH _ _ _ nc) by assumption.
      unfold setStatus, setPosition; cbn [ID Title Description Status Position].
      f_equal; lia.
    + rewrite (IH _ _ _ nc) by assumption. f_equal; f_equal; lia.
Qed.

(** The loop never moves a card out of the target status. *)
Lemma relabel_keeps_status newOrder : forall i status c,
  Status c = status -> Status (relabel i newOrder status c) = status.
Proof.
  induction newOrder as [|nc rest IH]; simpl; intros i status c H; auto.
  apply IH. now destruct (ID c =? ID nc)%string.
Qed.

Lemma relabel_in_status newOrder : forall i status c,
  In (ID c) (map ID newOrder) -> Status (relabel i newOrder status c) = status.
Proof.
  induction newOrder as [|nc rest IH]; simpl; intros i status c H; [tauto|].
  destruct (String.eqb_spec (ID c) (ID nc)) as [E|E].
  - now apply relabel_keeps_status.
  - apply IH. destruct H as [H|H]; [congruence | assumption].
Qed.

Lemma setStatus_setPosition_same c p :
  setStatus (setPosition c p) (Status c) = setPosition c p.
Proof. destruct c; reflexivity. Qed.

(** On a sequence without repeated IDs whose cards hold the target status,
    the loop numbers the cards of the sequence itself from [i] on. *)
Lemma relabel_numbers status l2 : forall l1 i,
  NoDup (map ID (l1 ++ l2)) ->
  Forall (fun c => Status c = status) l2 ->
  map (relabel i (l1 ++ l2) status) l2 = numbered (i + len l1) l2.
Proof.
  induction l2 as [|c l2 IH]; intros l1 i Hnd Hst; [reflexivity|].
  inversion Hst as [|? ? Hc Hrest]; subst.
  cbn [map numbered]. f_equal.
  - rewrite (relabel_at l1 i _ c c l2 eq_refl).
    + apply setStatus_setPosition_same.
    + rewrite map_app in Hnd; apply NoDup_app_remove_l in Hnd.
      now inversion Hnd.
  - replace (l1 ++ c :: l2) with ((l1 ++ [c]) ++ l2)
      by (now rewrite <- app_assoc).
    rewrite IH.
    + rewrite len_app, len_cons. unfold len at 2; simpl. f_equal; lia.
    + now rewrite <- app_assoc.
    + assumption.
Qed.

Lemma numbered_positions l : forall i,
  map Position (numbered i l)
  = map (fun k => i + Z.of_nat k) (seq 0 (List.length l)).
Proof.
  induction l as [|c l IH]; intros i; [reflexivity|].
  cbn [numbered map List.length seq]. f_equal; [simpl; lia|].
  rewrite IH, <- seq_shift, map_map.
  apply map_ext; intros k; lia.
Qed.

Lemma numbered_len l : forall i, len (numbered i l) = len l.
Proof.
  induction l as [|c l IH]; intros i; [reflexivity|].
  cbn [numbered]; now rewrite !len_cons, IH.
Qed.

Lemma numbered_nth l : forall i k c,
  nth_error l k = Some c ->
  In (setPosition c (i + Z.of_nat k)) (numbered i l).
Proof.
  induction l as [|a l IH]; intros i k c H.
  - destruct k; discriminate.
  - destruct k as [|k]; cbn [numbered].
    + inversion H; subst. left. f_equal. simpl; lia.
    + right. replace (i + Z.of_nat (S k)) with ((i + 1) + Z.of_nat k) by lia.
      now apply IH.
Qed.

Lemma NoDup_map_inj {A B : Type} (f : A -> B) (l : list A) :
  (forall a b, f a = f b -> a = b) -> NoDup l -> NoDup (map f l).
Proof.
  intros Hf; induction 1 as [|a l Ha Hl IH]; simpl; constructor; auto.
  intros F; apply in_map_iff in F as (b & E & Hb).
  apply Hf in E; now subst.
Qed.

Lemma dense_numbered l : dense (numbered 0 l).
Proof.
  unfold dense. rewrite numbered_len, numbered_positions. split.
  - apply NoDup_map_inj; [|apply seq_NoDup].
    intros a b; lia.
  - intros p; rewrite in_map_iff; unfold len; split.
    + intros (k & <- & Hk). apply in_seq in Hk. lia.
    + intros Hp. exists (Z.to_nat p). split; [lia|]. apply in_seq. lia.
Qed.

Lemma dense_perm a b : Permutation a b -> dense a -> dense b.
Proof.
  intros P [Hnd Hin]. pose proof (Permutation_map Position P) as PP.
  unfold dense, len. rewrite <- (Permutation_length P). split.
  - eapply Permutation_NoDup; eassumption.
  - intros p. rewrite <- (Hin p). split; apply Permutation_in;
      [now symmetry | assumption].
Qed.

(** ** Unique IDs *)

Lemma unique_ids_inj cards a b :
  unique_ids cards -> In a cards -> In b cards -> ID a = ID b -> a = b.
Proof.
  unfold unique_ids; induction cards as [|c cards IH]; simpl; [tauto|].
  intros Hnd Ha Hb E. inversion Hnd as [|? ? Hc Hrest]; subst.
  destruct Ha as [->|Ha], Hb as [->|Hb]; auto.
  - exfalso; apply Hc. rewrite E. now apply in_map.
  - exfalso; apply Hc. rewrite <- E. now apply in_map.
Qed.

Lemma NoDup_map_filter {A B : Type} (g : A -> B) (f : A -> bool) l :
  NoDup (map g l) -> NoDup (map g (filter f l)).
Proof.
  induction l as [|a l IH]; simpl; intros H; [constructor|].
  inversion H as [|? ? Ha Hl]; subst.
  destruct (f a); simpl; auto.
  constructor; auto.
  intros F; apply Ha. apply in_map_iff in F as (x & <- & Hx).
  apply filter_In in Hx as [Hx _]. now apply in_map.
Qed.

Lemma unique_ids_column status cards :
  unique_ids cards -> unique_ids (column status cards).
Proof. apply NoDup_map_filter. Qed.

Lemma others_notin id status l :
  ~ In id (map ID l) -> others l id status = column status l.
Proof.
  unfold others, column; induction l as [|a l IH]; simpl; intros H; auto.
  destruct (String.eqb_spec (ID a) id) as [E|E]; [tauto|]. simpl.
  rewrite IH by tauto. reflexivity.
Qed.

Lemma others_split id status pre mc post :
  ID mc = id ->
  others (pre ++ mc :: post) id status
  = others pre id status ++ others post id status.
Proof.
  intros E; unfold others. rewrite filter_app. simpl.
  now rewrite E, String.eqb_refl.
Qed.

Lemma column_split status pre mc post :
  Status mc = status ->
  column status (pre ++ mc :: post)
  = column status pre ++ mc :: column status post.
Proof.
  intros E; unfold column. rewrite filter_app. simpl.
  now rewrite E, String.eqb_refl.
Qed.

(** ** Repositioning *)

Lemma reposition_split pre mc post id u :
  ~ In id (map ID pre) -> ID mc = id ->
  reposition (pre ++ mc :: post) id u
  = Some (map (relabel 0 (newOrderOf (pre ++ mc :: post) id u mc) (Status u))
            (pre ++ mc :: post)).
Proof.
  intros Hpre Hid. unfold reposition.
  rewrite findCardIndex_split by assumption.
  destruct (Z.eqb_spec (len pre) (-1)) as [E|_];
    [pose proof (len_nonneg pre); lia|].
  rewrite index_split.
  rewrite buildNewOrder_clamped by (apply clampPos_range, len_nonneg).
  rewrite reassign_map. reflexivity.
Qed.

(** The update handler on a board that holds [id]: [c] is the first card
    with that ID. *)
Lemma updateCards_split pre c post id u :
  ~ In id (map ID pre) -> ID c = id ->
  updateCards id u (pre ++ c :: post)
  = Done (if moved (Status c) (Position c) u
          then map (relabel 0
                      (newOrderOf (pre ++ overwrite c u :: post) id u
                         (overwrite c u)) (Status u))
                 (pre ++ overwrite c u :: post)
          else pre ++ overwrite c u :: post).
Proof.
  intros Hpre Hid. unfold updateCards.
  rewrite replaceFields_split by assumption.
  destruct (moved (Status c) (Position c) u); [|reflexivity].
  rewrite reposition_split; auto.
  rewrite overwrite_eq; exact Hid.
Qed.

Lemma id_in_split id cards :
  In id (map ID cards) ->
  exists pre c post,
    cards = pre ++ c :: post /\ ~ In id (map ID pre) /\ ID c = id.
Proof.
  induction cards as [|a cards IH]; simpl; [tauto|]. intros H.
  destruct (string_dec (ID a) id) as [E|E].
  - exists [], a, cards; simpl; tauto.
  - destruct IH as (pre & c & post & -> & Hpre & Hid); [tauto|].
    exists (a :: pre), c, post; simpl; repeat split; tauto.
Qed.

(** [board.Cards[moveIdx]] is always within bounds. *)
Lemma updateCards_no_panic id u cards : updateCards id u cards <> RuntimePanic.
Proof.
  destruct (in_dec string_dec id (map ID cards)) as [H|H].
  - apply id_in_split in H as (pre & c & post & -> & Hpre & Hid).
    now rewrite updateCards_split.
  - unfold updateCards. apply replaceFields_None with (u := u) in H.
    now rewrite H.
Qed.

Section Repositioning.

(** The slice after the first loop: [mc] is the card that moves, already
    holding the target status, and no other card has its ID. *)
Variables (pre post : list Card) (mc : Card) (id : string) (update : Card).
Hypothesis Huniq : unique_ids (pre ++ mc :: post).
Hypothesis Hid : ID mc = id.
Hypothesis Hst : Status mc = Status update.

Local Abbreviation cards1 := (pre ++ mc :: post).
Local Abbreviation st := (Status update).
Local Abbreviation newOrder := (newOrderOf cards1 id update mc).

Lemma moving_id_unique :
  ~ In id (map ID pre) /\ ~ In id (map ID post).
Proof.
  unfold unique_ids in Huniq. rewrite map_app in Huniq. simpl in Huniq.
  apply NoDup_remove_2 in Huniq. rewrite Hid in Huniq.
  split; intros F; apply Huniq, in_or_app; tauto.
Qed.

Lemma others_is_column :
  others cards1 id st = column st pre ++ column st post.
Proof.
  destruct moving_id_unique as [Hpre Hpost].
  rewrite others_split by assumption.
  now rewrite !others_notin by assumption.
Qed.

Lemma newOrder_perm : Permutation newOrder (column st cards1).
Proof.
  unfold newOrderOf. rewrite <- Hst, setStatus_same, Hst.
  etransitivity.
  - apply spliced_perm, clampPos_range, len_nonneg.
  - rewrite others_is_column, column_split by assumption.
    apply Permutation_middle.
Qed.

Lemma newOrder_status : Forall (fun c => Status c = st) newOrder.
Proof.
  apply Forall_forall; intros c Hc.
  apply (Permutation_in _ newOrder_perm), filter_In in Hc as [_ Hc].
  now apply String.eqb_eq.
Qed.

Lemma newOrder_unique : unique_ids newOrder.
Proof.
  unfold unique_ids.
  eapply Permutation_NoDup.
  - symmetry; apply Permutation_map, newOrder_perm.
  - now apply unique_ids_column.
Qed.

(** The cards the loop touches are the cards of the target column. *)
Lemma touched_iff c :
  In c cards1 -> (In (ID c) (map ID newOrder) <-> Status c = st).
Proof.
  intros Hc; split.
  - intros H. apply in_map_iff in H as (nc & E & Hnc).
    apply (Permutation_in _ newOrder_perm), filter_In in Hnc as [Hnc Hs].
    rewrite <- (unique_ids_inj _ _ _ Huniq Hnc Hc E).
    now apply String.eqb_eq.
  - intros H. apply in_map.
    apply (Permutation_in _ (Permutation_sym newOrder_perm)).
    apply filter_In; split; [assumption | now apply String.eqb_eq].
Qed.

Lemma relabel_column_iff c status :
  In c cards1 ->
  (Status (relabel 0 newOrder st c) =? status)%string
  = (Status c =? status)%string.
Proof.
  intros Hc.
  destruct (in_dec string_dec (ID c) (map ID newOrder)) as [H|H].
  - rewrite relabel_in_status by assumption.
    apply (touched_iff c Hc) in H. now rewrite H.
  - now rewrite relabel_notin.
Qed.

Lemma column_relabel status :
  column status (map (relabel 0 newOrder st) cards1)
  = map (relabel 0 newOrder st) (column status cards1).
Proof.
  unfold column.
  assert (forall l, incl l cards1 ->
    filter (fun c => (Status c =? status)%string)
      (map (relabel 0 newOrder st) l)
    = map (relabel 0 newOrder st)
        (filter (fun c => (Status c =? status)%string) l)) as G.
  { induction l as [|a l IH]; intros Hl; [reflexivity|].
    cbn [map filter]. rewrite relabel_column_iff by (apply Hl; now left).
    rewrite IH by (intros x Hx; apply Hl; now right).
    now destruct (Status a =? status)%string. }
  apply G, incl_refl.
Qed.

(** Columns other than the target are left as they are. *)
Lemma other_column_untouched status :
  status <> st ->
  column status (map (relabel 0 newOrder st) cards1) = column status cards1.
Proof.
  intros Hne. rewrite column_relabel.
  rewrite <- (map_id (column status cards1)) at 2.
  apply map_ext_in; intros c Hc.
  apply filter_In in Hc as [Hc Hs]. apply String.eqb_eq in Hs.
  apply relabel_notin. intros F. apply (touched_iff c Hc) in F. congruence.
Qed.

(** The target column after the loop is [newOrder], numbered from 0. *)
Lemma target_column_numbered :
  Permutation (column st (map (relabel 0 newOrder st) cards1))
    (numbered 0 newOrder).
Proof.
  rewrite column_relabel.
  pose proof (relabel_numbers st newOrder [] 0 newOrder_unique
                newOrder_status) as E.
  change (map (relabel 0 newOrder st) newOrder = numbered 0 newOrder) in E.
rewrite <- E.
  apply Permutation_map. symmetry. apply newOrder_perm.
Qed.

Lemma target_column_dense :
  dense (column st (map (relabel 0 newOrder st) cards1)).
Proof.
  eapply dense_perm; [symmetry; apply target_column_numbered|].
  apply dense_numbered.
Qed.

End Repositioning.

(** ** Create *)

Lemma fold_max_spec l : forall m,
  let r := fold_left Z.max l m in
  m <= r /\ (forall p, In p l -> p <= r) /\ (r = m \/ In r l).
Proof.
  induction l as [|a l IH]; intros m; simpl.
  - split; [lia|]. split; [tauto | now left].
  - destruct (IH (Z.max m a)) as (H1 & H2 & H3).
    split; [lia|]. split.
    + intros p [<-|Hp]; [lia | now apply H2].
    + destruct H3 as [H3|H3]; [|now right; right].
      destruct (Z.max_spec m a) as [[_ E]|[_ E]].
      * right; left; congruence.
      * left; congruence.
Qed.

Lemma maxPosLoop_spec status cards : forall m,
  let r := maxPosLoop status cards m in
  m <= r /\
  (forall c, In c (column status cards) -> Position c <= r) /\
  (r = m \/ In r (map Position (column status cards))).
Proof.
  induction cards as [|a cards IH]; intros m; simpl.
  - split; [lia|]. split; [tauto | now left].
  - destruct (String.eqb_spec (Status a) status) as [E|E]; simpl.
    + destruct (Z.gtb_spec (Position a) m) as [G|G].
      * destruct (IH (Position a)) as (H1 & H2 & H3).
        split; [lia|]. split.
        -- intros c [<-|Hc]; [lia | now apply H2].
        -- destruct H3 as [H3|H3]; right; [left; congruence | now right].
      * destruct (IH m) as (H1 & H2 & H3).
        split; [lia|]. split.
        -- intros c [<-|Hc]; [lia | now apply H2].
        -- destruct H3 as [H3|H3]; [now left | right; now right].
    + apply IH.
Qed.

(** On a column of non-negative positions the loop computes the append
    position of the specification, less one. *)
Lemma maxPosLoop_appendPosition status cards :
  (forall c, In c (column status cards) -> 0 <= Position c) ->
  maxPosLoop status cards (-1) + 1 = appendPosition (column status cards).
Proof.
  intros Hpos.
  destruct (maxPosLoop_spec status cards (-1)) as (H1 & H2 & H3).
  unfold appendPosition, maxPositionOf.
  destruct (column status cards) as [|c rest] eqn:Ecol.
  - destruct H3 as [->|[]]. reflexivity.
  - f_equal.
    destruct (fold_max_spec (map Position rest) (Position c)) as (F1 & F2 & F3).
    cbv zeta in F1, F2, F3.
    set (r := maxPosLoop status cards (-1)) in *.
    set (f := fold_left Z.max (map Position rest) (Position c)) in *.
    assert (f <= r) as Hle.
    { destruct F3 as [->|F3].
      - apply H2; now left.
      - apply in_map_iff in F3 as (x & <- & Hx). apply H2; now right. }
    assert (r <= f) as Hge.
    { destruct H3 as [->|H3].
      - pose proof (Hpos c (or_introl eq_refl)). lia.
      - simpl in H3. destruct H3 as [<-|H3]; [assumption | now apply F2]. }
    lia.
Qed.

Lemma column_app status l1 l2 :
  column status (l1 ++ l2) = column status l1 ++ column status l2.
Proof. apply filter_app. Qed.

Lemma column_len_le status cards : len (column status cards) <= len cards.
Proof.
  unfold len, column.
  pose proof (filter_length_le (fun c => (Status c =? status)%string) cards).
  lia.
Qed.

(** On a dense column the loop finds the column's size, less one. *)
Lemma maxPosLoop_dense status cards :
  dense (column status cards) ->
  maxPosLoop status cards (-1) = len (column status cards) - 1.
Proof.
  intros [Hnd Hin].
  destruct (maxPosLoop_spec status cards (-1)) as (H1 & H2 & H3).
  cbv zeta in H1, H2, H3.
  set (r := maxPosLoop status cards (-1)) in *.
  set (col := column status cards) in *.
  assert (r <= len col - 1) as Hle.
  { destruct H3 as [->|H3]; [pose proof (len_nonneg col); lia|].
    apply Hin in H3. lia. }
  assert (len col - 1 <= r) as Hge.
  { destruct (Z.eq_dec (len col) 0) as [E|E]; [lia|].
    assert (In (len col - 1) (map Position col)) as Hk
      by (apply Hin; pose proof (len_nonneg col); lia).
    apply in_map_iff in Hk as (x & <- & Hx). now apply H2. }
  lia.
Qed.

Lemma maxPosLoop_no_overflow status cards :
  (forall c, In c (column status cards) -> 0 <= Position c < GoInt.max_int) ->
  GoInt.add (maxPosLoop status cards (-1)) 1
  = maxPosLoop status cards (-1) + 1.
Proof.
  intros Hpos. apply add_no_overflow.
  destruct (maxPosLoop_spec status cards (-1)) as (H1 & _ & H3).
  cbv zeta in H1, H3.
  assert (maxPosLoop status cards (-1) < GoInt.max_int) as Hlt.
  { destruct H3 as [->|H3]; [reflexivity|].
    apply in_map_iff in H3 as (x & <- & Hx). now apply Hpos. }
  unfold GoInt.in_range, GoInt.min_int, GoInt.max_int, GoInt.bits in *.
  simpl in *. lia.
Qed.

Lemma dense_ext a b :
  map Position a = map Position b -> dense a -> dense b.
Proof.
  intros E [Hnd Hin]. unfold dense.
  assert (len b = len a) as ->
    by (now rewrite <- (len_map Position b), <- E, len_map).
  now rewrite <- E.
Qed.

Lemma dense_snoc col c :
  dense col -> Position c = len col -> dense (col ++ [c]).
Proof.
  intros [Hnd Hin] Hc.
  apply (dense_perm (c :: col)); [apply Permutation_cons_append|].
  unfold dense. rewrite len_cons. cbn [map]. split.
  - constructor; [|assumption]. intros F. apply Hin in F. lia.
  - intros p. cbn [In]. rewrite Hin. pose proof (len_nonneg col). lia.
Qed.

Lemma dense_nil : dense [].
Proof.
  split; [constructor|]. intros p; unfold len; simpl. split; [tauto | lia].
Qed.

Lemma dense_bound col c : dense col -> In c col -> 0 <= Position c < len col.
Proof. intros [_ Hin] Hc. apply Hin. now apply in_map. Qed.

(** Create keeps the IDs apart when it is given a new one. *)
Lemma create_unique newID card cards :
  unique_ids cards -> ~ In newID (map ID cards) ->
  unique_ids (snd (createCards newID card cards)).
Proof.
  intros Hu Hfresh. unfold unique_ids, createCards. cbn [snd].
  rewrite map_app. cbn [map ID setID setPosition].
  eapply Permutation_NoDup; [apply Permutation_cons_append|].
  now constructor.
Qed.

(** Create keeps every column dense. *)
Lemma create_dense newID card cards :
  dense_board cards -> len cards < GoInt.max_int ->
  dense_board (snd (createCards newID card cards)).
Proof.
  intros Hd Hlen status. unfold createCards. cbn [snd].
  rewrite column_app. unfold column at 2. cbn [filter Status setPosition setID].
  destruct (String.eqb_spec (Status card) status) as [E|E].
  - subst status. apply dense_snoc; [apply Hd|].
    cbn [Position setPosition].
    rewrite maxPosLoop_no_overflow.
    + rewrite maxPosLoop_dense by apply Hd. cbn [Status setID]. lia.
    + intros c Hc. cbn [Status setID] in Hc.
      pose proof (dense_bound _ _ (Hd (Status card)) Hc).
      pose proof (column_len_le (Status card) cards). lia.
  - rewrite app_nil_r. apply Hd.
Qed.

(** ** Update *)

Lemma column_skip status pre c post :
  Status c <> status ->
  column status (pre ++ c :: post) = column status pre ++ column status post.
Proof.
  intros E. rewrite column_app. unfold column at 2. cbn [filter].
  destruct (String.eqb_spec (Status c) status); [contradiction | reflexivity].
Qed.

Lemma column_positions_replace status pre c c' post :
  Status c' = Status c -> Position c' = Position c ->
  map Position (column status (pre ++ c' :: post))
  = map Position (column status (pre ++ c :: post)).
Proof.
  intros Es Ep. rewrite !column_app, !map_app. f_equal.
  unfold column. cbn [filter]. rewrite Es.
  destruct (Status c =? status)%string; cbn [map]; congruence.
Qed.

Lemma updateCards_ids id u cards cards' :
  updateCards id u cards = Done cards' -> map ID cards' = map ID cards.
Proof.
  intros H.
  destruct (in_dec string_dec id (map ID cards)) as [Hin|Hin].
  - apply id_in_split in Hin as (pre & c & post & -> & Hpre & Hid).
    rewrite updateCards_split in H by assumption. inversion H as [E]. clear H E.
    assert (map ID (pre ++ overwrite c u :: post) = map ID (pre ++ c :: post))
      as Hov by (rewrite !map_app; cbn [map]; now rewrite overwrite_eq).
    destruct (moved (Status c) (Position c) u); [|assumption].
    rewrite map_map, <- Hov. apply map_ext. intros a. apply relabel_ID.
  - apply replaceFields_None with (u := u) in Hin.
    unfold updateCards in H. now rewrite Hin in H.
Qed.

(** An update that keeps the card in its column keeps every column dense. *)
Lemma update_in_place_dense pre c post u cards' :
  unique_ids (pre ++ c :: post) ->
  dense_board (pre ++ c :: post) ->
  Status c = Status u ->
  updateCards (ID c) u (pre ++ c :: post) = Done cards' ->
  dense_board cards'.
Proof.
  intros Hu Hd Hst H.
  assert (~ In (ID c) (map ID pre)) as Hpre.
  { unfold unique_ids in Hu. rewrite map_app in Hu. cbn [map] in Hu.
    apply NoDup_remove_2 in Hu. intros F; apply Hu, in_or_app; now left. }
  rewrite updateCards_split in H by auto. inversion H as [E]. clear H E.
  assert (ID (overwrite c u) = ID c) as Hid by (now rewrite overwrite_eq).
  assert (Status (overwrite c u) = Status u) as Hs
    by (now rewrite overwrite_eq).
  assert (unique_ids (pre ++ overwrite c u :: post)) as Hu1.
  { unfold unique_ids in *. rewrite map_app in *. cbn [map] in *.
    now rewrite Hid. }
  intros status. unfold moved.
  destruct (String.eqb_spec (Status c) (Status u)) as [_|]; [|contradiction].
  destruct (Z.eqb_spec (Position c) (Position u)) as [Ep|Ep]; cbn [negb orb].
  - eapply dense_ext; [|apply (Hd status)].
    symmetry. apply column_positions_replace; rewrite overwrite_eq; simpl; auto.
  - destruct (string_dec status (Status u)) as [->|Hne].
    + now apply target_column_dense.
    + rewrite other_column_untouched by assumption.
      rewrite column_skip by congruence.
      rewrite <- (column_skip status pre c post) by congruence.
      apply Hd.
Qed.

(** The invariant of the boards built without taking a card out of a
    column. *)
Lemma in_place_invariant cards :
  reachable_in_place cards -> unique_ids cards /\ dense_board cards.
Proof.
  induction 1 as [|cards newID j _ [Hu Hd] Hfresh Hlen
                 |cards id j cards' oldStatus oldPosition cards1 _ [Hu Hd]
                    Hrep Hold Hup].
  - split; [constructor | intros status; apply dense_nil].
  - split; [now apply create_unique | now apply create_dense].
  - apply replaceFields_Some in Hrep
      as (pre & c & post & -> & Hpre & <- & -> & _ & _).
    split.
    + unfold unique_ids. now rewrite (updateCards_ids _ _ _ _ Hup).
    + eapply update_in_place_dense; eauto.
Qed.

(** ** Concrete boards *)

Ltac distinct_ids :=
  unfold unique_ids; cbn [map ID];
  repeat (constructor; [cbn [In]; intuition discriminate|]); constructor.

Ltac small_board :=
  unfold GoInt.max_int, GoInt.bits, len; vm_compute; reflexivity.

Lemma createdABC_eq : Examples.createdABC = Examples.abc.
Proof. reflexivity. Qed.

Lemma bac_eq :
  Examples.bac
  = [mkCard "B" "B" "" "ToDo" 1; mkCard "A" "A" "" "ToDo" 0;
     mkCard "C" "C" "" "ToDo" 2].
Proof. reflexivity. Qed.

Lemma reachable_createdAB : reachable Examples.createdAB.
Proof.
  apply reach_create; [apply reach_create; [apply reach_empty| |]| |];
    try small_board; cbn; intuition discriminate.
Qed.

Lemma reachable_createdABC : reachable Examples.createdABC.
Proof.
  apply reach_create; [apply reachable_createdAB| |];
    try small_board; cbn; intuition discriminate.
Qed.

Lemma reachable_deletedB : reachable Examples.deletedB.
Proof.
  apply (reach_delete Examples.createdABC "B");
    [apply reachable_createdABC | reflexivity].
Qed.

Lemma reachable_bac : reachable Examples.bac.
Proof.
  apply (reach_update Examples.createdBAC "A" (Examples.move "A" "ToDo" 0));
    [|reflexivity].
  repeat (apply reach_create; [| cbn; intuition discriminate | small_board]).
  apply reach_empty.
Qed.

Lemma reachable_in_place_createdABC : reachable_in_place Examples.createdABC.
Proof.
  repeat (apply rip_create; [| cbn; intuition discriminate | small_board]).
  apply rip_empty.
Defined.

Lemma reachable_in_place_movedC : reachable_in_place Examples.movedC.
Proof.
  apply (rip_update Examples.createdABC "C" (Examples.move "C" "ToDo" 0)
           Examples.movedC "ToDo" 2
           [mkCard "A" "A" "" "ToDo" 0; mkCard "B" "B" "" "ToDo" 1;
            mkCard "C" "C" "" "ToDo" 0]);
    [apply reachable_in_place_createdABC | reflexivity..].
Defined.

(** * The properties of the specification *)

(** ** C1: dense ordering *)

(** C1, as stated, fails: the board reached by creating A, B and C in the
    column ToDo and deleting B holds the status ToDo with positions 0 and
    2, which is not [{0, 1}].  The delete handler filters the slice and
    saves it; it renumbers nothing. *)
Lemma C1_delete_leaves_gap :
  reachable Examples.deletedB /\
  map Position (column "ToDo" Examples.deletedB) = [0; 2] /\
  ~ dense_board Examples.deletedB.
Proof.
  split; [apply reachable_deletedB|]. split; [reflexivity|].
  intros H. destruct (H "ToDo") as [_ Hin].
  assert (In 2 (map Position (column "ToDo" Examples.deletedB))) as H2
    by (right; left; reflexivity).
  apply Hin in H2. vm_compute in H2. destruct H2 as [_ H2]. discriminate.
Qed.

(** A move to another column leaves the same kind of gap: A goes from
    ToDo to Doing, and ToDo keeps B at 1 and C at 2. *)
Lemma move_out_leaves_gap :
  reachable
    (Examples.cardsOf
       (updateCards "A" (decodeCard (Examples.move "A" "Doing" 5))
          Examples.createdABC)) /\
  map (fun c => (ID c, Status c, Position c))
    (Examples.cardsOf
       (updateCards "A" (decodeCard (Examples.move "A" "Doing" 5))
          Examples.createdABC))
  = [("A", "Doing", 0); ("B", "ToDo", 1); ("C", "ToDo", 2)].
Proof.
  split; [|reflexivity].
  apply (reach_update Examples.createdABC "A" (Examples.move "A" "Doing" 5));
    [apply reachable_createdABC | reflexivity].
Qed.

(** C1, amended: on every board reached from the empty board by creates
    and by updates that keep the card's status (no delete, no move to
    another column), the positions of the cards of every status are exactly
    [{0, ..., k-1}], each once, [k] being the number of cards with that
    status. *)
Theorem C1_dense_without_removal cards :
  reachable_in_place cards ->
  forall status,
    NoDup (map Position (column status cards)) /\
    forall p, In p (map Position (column status cards))
              <-> 0 <= p < len (column status cards).
Proof.
  intros H status. apply (in_place_invariant cards H).
Qed.

Lemma C1_dense_without_removal_witness :
  reachable_in_place Examples.movedC /\
  NoDup (map Position (column "ToDo" Examples.movedC)) /\
  forall p, In p (map Position (column "ToDo" Examples.movedC))
            <-> 0 <= p < len (column "ToDo" Examples.movedC).
Proof.
  split; [apply reachable_in_place_movedC|].
  apply (C1_dense_without_removal Examples.movedC reachable_in_place_movedC).
Defined.

(** ** C4: the destination column after a repositioning *)

(** C4, as stated, fails on a board with a repeated ID.  Two creates at
    one reading of the clock give two cards the ID 7; a third card, 8, is
    moved to the top of their column.  [newOrder] is 8, 7 (A), 7 (B), and
    the loop of lines 180-187, which finds the cards of the board by ID,
    gives both cards 7 first the index 1, then the index 2: the card at
    index 1 of [newOrder] ends at position 2 and the column has the
    positions 2, 2, 0. *)
Lemma C4_repeated_id_shares_position :
  Examples.twins
  = [mkCard "7" "A" "" "ToDo" 0; mkCard "7" "B" "" "ToDo" 1;
     mkCard "8" "C" "" "ToDo" 2] /\
  moved "ToDo" 2 (decodeCard (Examples.move "C" "ToDo" 0)) = true /\
  buildNewOrder [mkCard "7" "A" "" "ToDo" 0; mkCard "7" "B" "" "ToDo" 1] 0
    (mkCard "8" "C" "" "ToDo" 0)
  = Some [mkCard "8" "C" "" "ToDo" 0; mkCard "7" "A" "" "ToDo" 0;
          mkCard "7" "B" "" "ToDo" 1] /\
  updateCards "8" (decodeCard (Examples.move "C" "ToDo" 0)) Examples.twins
  = Done [mkCard "7" "A" "" "ToDo" 2; mkCard "7" "B" "" "ToDo" 2;
          mkCard "8" "C" "" "ToDo" 0] /\
  ~ dense (column "ToDo"
             [mkCard "7" "A" "" "ToDo" 2; mkCard "7" "B" "" "ToDo" 2;
              mkCard "8" "C" "" "ToDo" 0]).
Proof.
  do 4 (split; [vm_compute; reflexivity|]).
  intros [Hnd _]. cbn in Hnd. inversion Hnd as [|? ? Hin _]; subst.
  apply Hin. now left.
Qed.

(** C4, amended: when the update handler repositions (the card exists and
    its status or position changes), every card with the requested ID holds
    the target status on the saved board; and when the IDs of the board are
    distinct, every card of the sequence [newOrder] the handler built is on
    the saved board with its index in that sequence as position, and the
    cards holding the target status are those of [newOrder], so that their
    positions are exactly [{0, ..., m-1}], [m] being the length of
    [newOrder]. *)
Theorem C4_destination_renumbered cards id update oldStatus oldPosition cards1 :
  replaceFields id update cards = Some (oldStatus, oldPosition, cards1) ->
  moved oldStatus oldPosition update = true ->
  exists movingCard newOrder cards',
    index cards1 (findCardIndex cards1 id) = Some movingCard /\
    buildNewOrder (others cards1 id (Status update))
      (clampPos (Position update) (len (others cards1 id (Status update))))
      (setStatus movingCard (Status update))
    = Some newOrder /\
    updateCards id update cards = Done cards' /\
    (forall c, In c cards' -> ID c = id -> Status c = Status update) /\
    (unique_ids cards ->
     (forall k nc, nth_error newOrder k = Some nc ->
                   In (setPosition nc (Z.of_nat k)) cards') /\
     Permutation (column (Status update) cards') (numbered 0 newOrder) /\
     dense (column (Status update) cards') /\
     len (column (Status update) cards') = len newOrder).
Proof.
  intros Hrep Hmoved.
  pose proof Hrep as Hsplit.
  apply replaceFields_Some in Hsplit
    as (pre & c & post & -> & Hpre & Hid & -> & -> & ->).
  set (mc := overwrite c update).
  assert (ID mc = id) as Hmid by (unfold mc; now rewrite overwrite_eq).
  assert (Status mc = Status update) as Hmst
    by (unfold mc; now rewrite overwrite_eq).
  exists mc, (newOrderOf (pre ++ mc :: post) id update mc). eexists.
  split; [|split; [|split; [|split]]].
  - rewrite findCardIndex_split by assumption. apply index_split.
  - apply buildNewOrder_clamped, clampPos_range, len_nonneg.
  - rewrite updateCards_split by assumption. rewrite Hmoved. reflexivity.
  - fold mc. intros c' Hc' Hid'.
    apply in_map_iff in Hc' as (c0 & <- & Hc0).
    rewrite relabel_ID in Hid'.
    apply relabel_in_status. unfold newOrderOf.
    rewrite Hid', <- Hmid.
    apply (spliced_has_moving _ _ (setStatus mc (Status update))).
  - fold mc. intros Hu.
    assert (unique_ids (pre ++ mc :: post)) as Hu1.
    { unfold unique_ids in *. rewrite map_app in *. cbn [map] in *.
      unfold mc. now rewrite overwrite_eq. }
    pose proof (target_column_numbered pre post mc id update Hu1 Hmid Hmst)
      as Hperm.
    split; [|split; [exact Hperm|split]].
    + intros k nc Hk.
      apply (numbered_nth _ 0) in Hk. cbn [Z.add] in Hk.
      apply (Permutation_in _ (Permutation_sym Hperm)) in Hk.
      now apply filter_In in Hk.
    + now apply target_column_dense.
    + unfold len. rewrite (Permutation_length Hperm).
      apply (numbered_len _ 0).
Qed.

Lemma C4_destination_renumbered_witness :
  unique_ids Examples.bac /\
  exists newOrder cards',
    updateCards "C" (Examples.req "ToDo" 0) Examples.bac = Done cards' /\
    Permutation (column "ToDo" cards') (numbered 0 newOrder) /\
    dense (column "ToDo" cards').
Proof.
  assert (unique_ids Examples.bac) as Hu by distinct_ids.
  split; [exact Hu|].
  destruct (C4_destination_renumbered Examples.bac "C" (Examples.req "ToDo" 0)
              "ToDo" 2
              [mkCard "B" "B" "" "ToDo" 1; mkCard "A" "A" "" "ToDo" 0;
               mkCard "C" "t" "d" "ToDo" 0] eq_refl eq_refl)
    as (movingCard & newOrder & cards' & _ & _ & Hup & _ & Hdistinct).
  destruct (Hdistinct Hu) as (_ & Hperm & Hdense & _).
  exists newOrder, cards'.
  split; [exact Hup | split; [exact Hperm | exact Hdense]].
Defined.

(** ** Running the handlers *)

Lemma LoadBoard_store env s :
  snd (LoadBoard env s) = mkS3 (object s) (calls s ++ [GetObject]).
Proof.
  unfold LoadBoard, s3GetObject, bind, record, ret; cbn.
  destruct (getFault env) as [[code| |]|], (object s) as [[b|]|]; reflexivity.
Qed.

Lemma LoadBoard_present env s board :
  getFault env = None -> object s = Some (Parses board) ->
  LoadBoard env s = (inr board, mkS3 (object s) (calls s ++ [GetObject])).
Proof.
  intros Hf Ho. unfold LoadBoard, s3GetObject, bind, record, ret; cbn.
  now rewrite Hf, Ho.
Qed.

Lemma finish_Done env cards s :
  finish env (Done cards) s
  = if putFault env
    then (Reply 500 Empty,
          mkS3 (object s) (calls s ++ [PutObject (mkBoard cards)]))
    else (Reply 204 Empty,
          mkS3 (Some (Parses (mkBoard cards)))
               (calls s ++ [PutObject (mkBoard cards)])).
Proof.
  unfold finish, SaveBoard, s3PutObject, bind, record, ret; cbn.
  destruct (putFault env); reflexivity.
Qed.

Lemma putCard_loaded env id j s board s1 :
  LoadBoard env s = (inr board, s1) ->
  putCard env id (Some j) s
  = finish env (updateCards id (decodeCard j) (Cards board)) s1.
Proof. intros H. unfold putCard, bind at 1. now rewrite H. Qed.

Lemma deleteCard_loaded env id s board s1 :
  LoadBoard env s = (inr board, s1) ->
  deleteCard env id s = finish env (deleteCards id (Cards board)) s1.
Proof. intros H. unfold deleteCard, bind at 1. now rewrite H. Qed.

Lemma postCard_loaded env j s board s1 :
  LoadBoard env s = (inr board, s1) ->
  postCard env (Some j) s
  = let (card, cards) :=
      createCards (generateID (now env)) (decodeCard j) (Cards board) in
    if putFault env
    then (Reply 500 Empty,
          mkS3 (object s1) (calls s1 ++ [PutObject (mkBoard cards)]))
    else (Reply 200 (CardPayload card),
          mkS3 (Some (Parses (mkBoard cards)))
               (calls s1 ++ [PutObject (mkBoard cards)])).
Proof.
  intros H. unfold postCard, bind at 1. rewrite H.
  unfold createCards, SaveBoard, s3PutObject, bind, record, ret; cbn.
  destruct (putFault env); reflexivity.
Qed.

Lemma deleteCards_absent id cards :
  ~ In id (map ID cards) -> deleteCards id cards = CardNotFound.
Proof.
  intros H. unfold deleteCards.
  assert (filter (fun c => negb (ID c =? id)%string) cards = cards) as ->.
  { induction cards as [|a cards IH]; [reflexivity|]. cbn [filter].
    cbn [map In] in H.
    destruct (String.eqb_spec (ID a) id) as [E|E]; [tauto|].
    cbn [negb]. rewrite IH by tauto. reflexivity. }
  now rewrite Z.eqb_refl.
Qed.

Lemma LoadBoard_holds env s cards :
  getFault env = None -> holds s cards ->
  LoadBoard env s
  = (inr (mkBoard cards), mkS3 (object s) (calls s ++ [GetObject])).
Proof.
  intros Hf [Ho|[Ho ->]].
  - now apply LoadBoard_present.
  - unfold LoadBoard, s3GetObject, bind, record, ret; cbn.
    now rewrite Hf, Ho.
Qed.

(** With the store answering, what a handler leaves in the store is what
    its board transformation computes: the boards of [reachable] are the
    boards that sequences of requests persist. *)
Lemma store_follows_transformations env s cards :
  getFault env = None -> putFault env = false -> holds s cards ->
  (forall j,
     holds (snd (postCard env (Some j) s))
       (snd (createCards (generateID (now env)) (decodeCard j) cards))) /\
  (forall id j cards',
     updateCards id (decodeCard j) cards = Done cards' ->
     holds (snd (putCard env id (Some j) s)) cards') /\
  (forall id cards',
     deleteCards id cards = Done cards' ->
     holds (snd (deleteCard env id s)) cards').
Proof.
  intros Hget Hput Hs.
  pose proof (LoadBoard_holds env s cards Hget Hs) as Hload.
  split; [|split].
  - intros j. rewrite (postCard_loaded _ _ _ _ _ Hload), Hput.
    unfold createCards. cbn. now left.
  - intros id j cards' Hup.
    rewrite (putCard_loaded _ _ _ _ _ _ Hload). cbn [Cards].
    rewrite Hup, finish_Done, Hput. now left.
  - intros id cards' Hdel.
    rewrite (deleteCard_loaded _ _ _ _ _ Hload). cbn [Cards].
    rewrite Hdel, finish_Done, Hput. now left.
Qed.

(** ** C5: create appends *)

Lemma to_int_not_nil z :
  Z.to_int z <> Decimal.Pos Decimal.Nil /\
  Z.to_int z <> Decimal.Neg Decimal.Nil.
Proof.
  destruct z as [|p|p]; cbn; split; try discriminate;
    intros [= E]; now apply Unsigned.to_uint_nonnil in E.
Qed.

(** Two readings of the clock that print alike are one reading. *)
Lemma generateID_inj a b : generateID a = generateID b -> a = b.
Proof.
  unfold generateID. intros E.
  apply (f_equal NilZero.int_of_string) in E.
  destruct (to_int_not_nil a) as [Ha1 Ha2].
  destruct (to_int_not_nil b) as [Hb1 Hb2].
  rewrite !NilZero.isi in E by assumption.
  inversion E as [E']. now apply DecimalZ.to_int_inj.
Qed.

(** C5, as stated ("on any board"), fails where the target column holds no
    position from 0 up, or holds the largest [int].  The loop of lines
    88-93 starts from [maxPos = -1]: a column whose only card sits at
    position -3 has largest position -3, and the card created in it gets
    position 0, not -2.  And [maxPos + 1] is an addition on [int]: a column
    whose card sits at the largest [int] gets its new card at the
    smallest. *)
Lemma C5_position_outside_the_bounds :
  maxPositionOf (column "ToDo" Examples.belowZero) = Some (-3) /\
  fst (postCard (mkEnv None false 5) (Some (Examples.newCard "N" "ToDo"))
         (mkS3 (Some (Parses (mkBoard Examples.belowZero))) []))
  = Reply 200 (CardPayload (mkCard "5" "N" "" "ToDo" 0)) /\
  maxPositionOf (column "ToDo" Examples.atMaxInt) = Some GoInt.max_int /\
  fst (postCard (mkEnv None false 5) (Some (Examples.newCard "N" "ToDo"))
         (mkS3 (Some (Parses (mkBoard Examples.atMaxInt))) []))
  = Reply 200 (CardPayload (mkCard "5" "N" "" "ToDo" GoInt.min_int)).
Proof. repeat split; vm_compute; reflexivity. Qed.

(** C5, amended: on a board whose cards of the target status have positions
    that are non-negative and below the largest [int], a create request
    that reaches the store answers 200 with a card whose position is one
    more than the largest position of the target status, 0 when no card
    holds it, and whose title, description and status are those of the
    body.  The ID and the position of the body play no part: the ID is the
    reading of the server's clock in decimal, and it is new on the board as
    long as every ID of the board was printed from another reading.  The
    card is added at the end of the slice and its position is above that of
    every card of its column. *)
Theorem C5_create_appends env j s board s1 :
  LoadBoard env s = (inr board, s1) ->
  putFault env = false ->
  (forall c, In c (column (orZero "" (jStatus j)) (Cards board)) ->
             0 <= Position c < GoInt.max_int) ->
  let col := column (orZero "" (jStatus j)) (Cards board) in
  let created :=
    mkCard (generateID (now env))
           (orZero "" (jTitle j)) (orZero "" (jDescription j))
           (orZero "" (jStatus j)) (appendPosition col) in
  postCard env (Some j) s
  = (Reply 200 (CardPayload created),
     mkS3 (Some (Parses (mkBoard (Cards board ++ [created]))))
          (calls s1 ++ [PutObject (mkBoard (Cards board ++ [created]))])) /\
  (col = [] -> Position created = 0) /\
  (forall p, maxPositionOf col = Some p -> Position created = p + 1) /\
  (forall c, In c col -> Position c < Position created) /\
  ((forall c, In c (Cards board) ->
              exists t, t <> now env /\ ID c = generateID t) ->
   ~ In (ID created) (map ID (Cards board))).
Proof.
  intros Hload Hput Hpos col created.
  assert (fst (createCards (generateID (now env)) (decodeCard j)
                 (Cards board)) = created) as Hc.
  { unfold createCards, created, col. cbn [fst]. unfold setPosition, setID.
    cbn [ID Title Description Status Position decodeCard].
    rewrite maxPosLoop_no_overflow by assumption.
    rewrite maxPosLoop_appendPosition; [reflexivity|].
    intros c Hin. now apply Hpos. }
  split; [|split; [|split; [|split]]].
  - rewrite (postCard_loaded _ _ _ _ _ Hload), Hput.
    unfold createCards in *. cbn [fst] in Hc. now rewrite Hc.
  - intros E. subst created. cbn [Position]. now rewrite E.
  - intros p E. subst created. cbn [Position]. unfold appendPosition.
    now rewrite E.
  - intros c Hin. subst created col. cbn [Position].
    rewrite <- maxPosLoop_appendPosition by (intros x Hx; now apply Hpos).
    destruct (maxPosLoop_spec (orZero "" (jStatus j)) (Cards board) (-1))
      as (_ & H2 & _).
    specialize (H2 c Hin). lia.
  - intros Hother F. subst created. cbn [ID] in F.
    apply in_map_iff in F as (c & Hid & Hin).
    destruct (Hother c Hin) as (t & Hne & Ht).
    apply Hne, generateID_inj. congruence.
Qed.

Lemma C5_create_appends_witness :
  let env := mkEnv None false 1700000000000000000 in
  let j := mkCardJSON (Some "mine") (Some "D") None (Some "ToDo") (Some 0) in
  let s := mkS3 (Some (Parses (mkBoard Examples.abc))) [] in
  let created := mkCard "1700000000000000000" "D" "" "ToDo" 3 in
  postCard env (Some j) s
  = (Reply 200 (CardPayload created),
     mkS3 (Some (Parses (mkBoard (Examples.abc ++ [created]))))
          [GetObject; PutObject (mkBoard (Examples.abc ++ [created]))]).
Proof.
  intros env j s created.
  refine (proj1 (C5_create_appends env j s (mkBoard Examples.abc)
                   (mkS3 (Some (Parses (mkBoard Examples.abc))) [GetObject])
                   eq_refl eq_refl _)).
  intros c Hc. cbn in Hc.
  destruct Hc as [<-|[<-|[<-|[]]]]; cbn; unfold GoInt.max_int; cbn; lia.
Defined.

(** ** C6: an update that changes neither status nor position *)

Lemma moved_same_place c update :
  Status update = Status c -> Position update = Position c ->
  moved (Status c) (Position c) update = false.
Proof.
  intros Hs Hp. unfold moved.
  now rewrite Hs, Hp, String.eqb_refl, Z.eqb_refl.
Qed.

Lemma updateCards_same_place pre c post update :
  ~ In (ID c) (map ID pre) ->
  Status update = Status c ->
  Position update = Position c ->
  updateCards (ID c) update (pre ++ c :: post)
  = Done (pre
          ++ setDescription (setTitle c (Title update)) (Description update)
          :: post).
Proof.
  intros Hpre Hs Hp.
  rewrite updateCards_split by auto.
  rewrite (moved_same_place c update Hs Hp), overwrite_eq, Hs, Hp.
  reflexivity.
Qed.

(** C6: when the request carries the status and the position the card
    already has, the test of line 146 is false, no repositioning runs, and
    the slice that is saved differs from the loaded one in the title and
    the description of that card only: every other card is as it was. *)
Theorem C6_same_place_leaves_others pre c post update :
  ~ In (ID c) (map ID pre) ->
  Status update = Status c ->
  Position update = Position c ->
  moved (Status c) (Position c) update = false /\
  exists c',
    c' = setDescription (setTitle c (Title update)) (Description update) /\
    updateCards (ID c) update (pre ++ c :: post) = Done (pre ++ c' :: post) /\
    ID c' = ID c /\ Status c' = Status c /\ Position c' = Position c.
Proof.
  intros Hpre Hs Hp. split; [now apply moved_same_place|].
  eexists. split; [reflexivity|].
  split; [now apply updateCards_same_place|].
  repeat split.
Qed.

Lemma C6_same_place_leaves_others_witness :
  exists c',
    c' = mkCard "B" "t" "d" "ToDo" 1 /\
    updateCards "B" (Examples.req "ToDo" 1) Examples.abc
    = Done [mkCard "A" "A" "" "ToDo" 0; c'; mkCard "C" "C" "" "ToDo" 2] /\
    ID c' = "B" /\ Status c' = "ToDo" /\ Position c' = 1.
Proof.
  refine (proj2 (C6_same_place_leaves_others
                   [mkCard "A" "A" "" "ToDo" 0] (mkCard "B" "B" "" "ToDo" 1)
                   [mkCard "C" "C" "" "ToDo" 2] (Examples.req "ToDo" 1)
                   _ eq_refl eq_refl)).
  cbn. intuition discriminate.
Defined.

(** ** C7: unknown IDs *)

(** C7: when the board loads and holds no card with the requested ID, the
    update handler and the delete handler both answer 404, and the store is
    left with the object it had, having received the read and no write. *)
Theorem C7_unknown_id env s board s1 id j :
  LoadBoard env s = (inr board, s1) ->
  ~ In id (map ID (Cards board)) ->
  putCard env id (Some j) s = (Reply 404 Empty, s1) /\
  deleteCard env id s = (Reply 404 Empty, s1) /\
  object s1 = object s /\
  calls s1 = calls s ++ [GetObject].
Proof.
  intros Hload Hid.
  pose proof (LoadBoard_store env s) as Hs. rewrite Hload in Hs. cbn in Hs.
  split; [|split; [|subst s1; split; reflexivity]].
  - rewrite (putCard_loaded _ _ _ _ _ _ Hload). unfold updateCards.
    apply replaceFields_None with (u := decodeCard j) in Hid.
    now rewrite Hid.
  - rewrite (deleteCard_loaded _ _ _ _ _ Hload).
    now rewrite deleteCards_absent.
Qed.

Lemma C7_unknown_id_witness :
  let env := mkEnv None false 0 in
  let s := mkS3 (Some (Parses (mkBoard Examples.abc))) [] in
  let s1 := mkS3 (Some (Parses (mkBoard Examples.abc))) [GetObject] in
  putCard env "Z" (Some (Examples.move "Z" "Done" 0)) s
  = (Reply 404 Empty, s1) /\
  deleteCard env "Z" s = (Reply 404 Empty, s1).
Proof.
  intros env s s1.
  destruct (C7_unknown_id env s (mkBoard Examples.abc) s1 "Z"
              (Examples.move "Z" "Done" 0) eq_refl) as (H1 & H2 & _).
  - cbn. intuition discriminate.
  - split; assumption.
Defined.

(** ** C8: loading an absent or an unreadable document *)

(** C8: with the store answering, [LoadBoard] on a missing object returns
    the empty board and no error (so does any API error with the code
    NoSuchKey or NotFound), while on an object that does not parse it
    returns the decoding error; the object is then left as it is, and every
    handler answers 500 without writing. *)
Theorem C8_absent_is_empty_corrupt_is_error putFails clock cs id j :
  let env := mkEnv None putFails clock in
  let absent := mkS3 None cs in
  let corrupt := mkS3 (Some Garbled) cs in
  LoadBoard env absent = (inr (mkBoard []), mkS3 None (cs ++ [GetObject])) /\
  (forall o,
     LoadBoard (mkEnv (Some (APIError "NoSuchKey")) putFails clock) (mkS3 o cs)
     = (inr (mkBoard []), mkS3 o (cs ++ [GetObject])) /\
     LoadBoard (mkEnv (Some (APIError "NotFound")) putFails clock) (mkS3 o cs)
     = (inr (mkBoard []), mkS3 o (cs ++ [GetObject]))) /\
  LoadBoard env corrupt
  = (inl ErrDecoding, mkS3 (Some Garbled) (cs ++ [GetObject])) /\
  getBoard env corrupt
  = (Reply 500 (Text "Failed to load board"),
     mkS3 (Some Garbled) (cs ++ [GetObject])) /\
  postCard env (Some j) corrupt
  = (Reply 500 Empty, mkS3 (Some Garbled) (cs ++ [GetObject])) /\
  putCard env id (Some j) corrupt
  = (Reply 500 Empty, mkS3 (Some Garbled) (cs ++ [GetObject])) /\
  deleteCard env id corrupt
  = (Reply 500 Empty, mkS3 (Some Garbled) (cs ++ [GetObject])).
Proof.
  cbv zeta. repeat split.
Qed.

(** ** C9: the status is taken as it comes *)

Lemma find_split id pre c post :
  ~ In id (map ID pre) -> ID c = id ->
  find (fun x => (ID x =? id)%string) (pre ++ c :: post) = Some c.
Proof.
  intros Hpre Hid. induction pre as [|a pre IH]; cbn [app find].
  - now rewrite Hid, String.eqb_refl.
  - cbn [map In] in Hpre.
    destruct (String.eqb_spec (ID a) id); [tauto|]. apply IH; tauto.
Qed.

(** The first card with the requested ID holds the requested status once
    the update handler is done, whatever the other loops did. *)
Lemma updateCards_status id u cards :
  In id (map ID cards) ->
  exists cards' c',
    updateCards id u cards = Done cards' /\
    find (fun x => (ID x =? id)%string) cards' = Some c' /\
    Status c' = Status u /\ Title c' = Title u /\
    Description c' = Description u.
Proof.
  intros Hin.
  apply id_in_split in Hin as (pre & c & post & -> & Hpre & Hid).
  rewrite updateCards_split by assumption.
  assert (ID (overwrite c u) = id) as Hoid by (now rewrite overwrite_eq).
  destruct (moved (Status c) (Position c) u).
  - eexists. eexists. split; [reflexivity|]. split.
    + rewrite map_app. cbn [map]. apply find_split.
      * rewrite map_map. erewrite map_ext; [exact Hpre|].
        intros a; apply relabel_ID.
      * now rewrite relabel_ID.
    + split; [|split].
      * apply relabel_keeps_status. now rewrite overwrite_eq.
      * rewrite relabel_Title. now rewrite overwrite_eq.
      * rewrite relabel_Description. now rewrite overwrite_eq.
  - eexists. eexists. split; [reflexivity|]. split.
    + now apply find_split.
    + rewrite overwrite_eq. auto.
Qed.

(** C9: whatever string the body gives as status, and the empty string
    when the body has no status, a create request that reaches the store
    answers 200 with a card holding exactly that status, and an update
    request for a card of the board answers 204 and saves a board on which
    that card holds exactly that status.  Nothing compares the string with
    ToDo, Doing, Hold or Done. *)
Theorem C9_status_verbatim env j s board s1 id :
  LoadBoard env s = (inr board, s1) ->
  putFault env = false ->
  (exists created,
     postCard env (Some j) s
     = (Reply 200 (CardPayload created),
        mkS3 (Some (Parses (mkBoard (Cards board ++ [created]))))
             (calls s1 ++ [PutObject (mkBoard (Cards board ++ [created]))])) /\
     Status created = orZero "" (jStatus j)) /\
  (In id (map ID (Cards board)) ->
   exists cards' c',
     putCard env id (Some j) s
     = (Reply 204 Empty,
        mkS3 (Some (Parses (mkBoard cards')))
             (calls s1 ++ [PutObject (mkBoard cards')])) /\
     find (fun x => (ID x =? id)%string) cards' = Some c' /\
     Status c' = orZero "" (jStatus j)).
Proof.
  intros Hload Hput. split.
  - eexists. split.
    + rewrite (postCard_loaded _ _ _ _ _ Hload), Hput.
      unfold createCards. reflexivity.
    + reflexivity.
  - intros Hin.
    destruct (updateCards_status id (decodeCard j) (Cards board) Hin)
      as (cards' & c' & Hup & Hfind & Hst & _).
    exists cards', c'. split; [|split; assumption].
    now rewrite (putCard_loaded _ _ _ _ _ _ Hload), Hup, finish_Done, Hput.
Qed.

Lemma C9_status_verbatim_witness :
  let env := mkEnv None false 7 in
  let s := mkS3 (Some (Parses (mkBoard Examples.abc))) [] in
  (exists created,
     fst (postCard env (Some (mkCardJSON None (Some "x") None None None)) s)
     = Reply 200 (CardPayload created) /\ Status created = "") /\
  (exists cards' c',
     fst (putCard env "B" (Some (Examples.move "B" "Someday / Maybe" 0)) s)
     = Reply 204 Empty /\
     object (snd (putCard env "B"
                    (Some (Examples.move "B" "Someday / Maybe" 0)) s))
     = Some (Parses (mkBoard cards')) /\
     find (fun x => (ID x =? "B")%string) cards' = Some c' /\
     Status c' = "Someday / Maybe").
Proof.
  intros env s. split.
  - destruct (C9_status_verbatim env (mkCardJSON None (Some "x") None None None)
                s (mkBoard Examples.abc)
                (mkS3 (Some (Parses (mkBoard Examples.abc))) [GetObject])
                "B" eq_refl eq_refl) as [(created & Hpost & Hst) _].
    exists created. rewrite Hpost. split; [reflexivity | exact Hst].
  - destruct (C9_status_verbatim env (Examples.move "B" "Someday / Maybe" 0)
                s (mkBoard Examples.abc)
                (mkS3 (Some (Parses (mkBoard Examples.abc))) [GetObject])
                "B" eq_refl eq_refl) as [_ Hupd].
    destruct Hupd as (cards' & c' & Hputc & Hfind & Hst).
    + cbn. tauto.
    + exists cards', c'. rewrite Hputc.
      split; [reflexivity | split; [reflexivity | split; assumption]].
Defined.

(** ** C10: what the no-op case still does *)

(** C10: when the request carries the status and the position the card
    already has, the handler still gives the card the title and the
    description of the body, and still sends the whole board to the store:
    the one write of the request is a [PutObject] of that board, and when
    it succeeds the answer is 204 and the object is that board. *)
Theorem C10_same_place_still_saves env j s board s1 pre c post :
  LoadBoard env s = (inr board, s1) ->
  Cards board = pre ++ c :: post ->
  ~ In (ID c) (map ID pre) ->
  orZero "" (jStatus j) = Status c ->
  orZero 0 (jPosition j) = Position c ->
  let c' := mkCard (ID c) (orZero "" (jTitle j)) (orZero "" (jDescription j))
                   (Status c) (Position c) in
  let board' := mkBoard (pre ++ c' :: post) in
  moved (Status c) (Position c) (decodeCard j) = false /\
  calls (snd (putCard env (ID c) (Some j) s))
  = calls s1 ++ [PutObject board'] /\
  (putFault env = false ->
   putCard env (ID c) (Some j) s
   = (Reply 204 Empty,
      mkS3 (Some (Parses board')) (calls s1 ++ [PutObject board']))).
Proof.
  intros Hload Hcards Hpre Hs Hp c' board'.
  pose proof (moved_same_place c (decodeCard j) Hs Hp) as Hm.
  pose proof (updateCards_same_place pre c post (decodeCard j) Hpre Hs Hp)
    as Hup.
  split; [exact Hm|].
  rewrite (putCard_loaded _ _ _ _ _ _ Hload), Hcards, Hup, finish_Done.
  assert (setDescription (setTitle c (Title (decodeCard j)))
            (Description (decodeCard j)) = c') as -> by reflexivity.
  fold board'. split.
  - destruct (putFault env); reflexivity.
  - intros ->. reflexivity.
Qed.

Lemma C10_same_place_still_saves_witness :
  let env := mkEnv None false 0 in
  let s := mkS3 (Some (Parses (mkBoard Examples.abc))) [] in
  let board' :=
    mkBoard [mkCard "A" "A" "" "ToDo" 0; mkCard "B" "new title" "" "ToDo" 1;
             mkCard "C" "C" "" "ToDo" 2] in
  putCard env "B" (Some (Examples.move "new title" "ToDo" 1)) s
  = (Reply 204 Empty,
     mkS3 (Some (Parses board')) [GetObject; PutObject board']).
Proof.
  intros env s board'.
  refine (proj2 (proj2 (C10_same_place_still_saves env
                          (Examples.move "new title" "ToDo" 1) s
                          (mkBoard Examples.abc)
                          (mkS3 (Some (Parses (mkBoard Examples.abc)))
                             [GetObject])
                          [mkCard "A" "A" "" "ToDo" 0]
                          (mkCard "B" "B" "" "ToDo" 1)
                          [mkCard "C" "C" "" "ToDo" 2]
                          eq_refl eq_refl _ eq_refl eq_refl)) eq_refl).
  cbn. intuition discriminate.
Defined.

(** ** C3: clamping *)

(** The loop looks at [newOrder] through its IDs only. *)
Lemma relabel_ext no1 : forall no2 i status c,
  map ID no1 = map ID no2 ->
  relabel i no1 status c = relabel i no2 status c.
Proof.
  induction no1 as [|a no1 IH]; intros [|b no2] i status c E;
    try discriminate; [reflexivity|].
  cbn [map] in E. inversion E as [[Ea Er]]. cbn [relabel].
  rewrite Ea. now apply IH.
Qed.

(** A card that [newOrder] lists loses the position it came with. *)
Lemma relabel_forgets_position newOrder : forall i status c p,
  In (ID c) (map ID newOrder) ->
  relabel i newOrder status (setPosition c p) = relabel i newOrder status c.
Proof.
  induction newOrder as [|nc rest IH]; intros i status c p Hin; [destruct Hin|].
  cbn [relabel]. cbn [ID setPosition].
  destruct (String.eqb_spec (ID c) (ID nc)) as [E|E].
  - reflexivity.
  - apply IH. destruct Hin as [Hin|Hin]; [congruence | assumption].
Qed.

Lemma others_same_id id status pre x y post :
  ID x = id -> ID y = id ->
  others (pre ++ x :: post) id status = others (pre ++ y :: post) id status.
Proof. intros Hx Hy. now rewrite !others_split. Qed.

Lemma others_len_le cards id status :
  len (others cards id status) <= len (column status cards).
Proof.
  unfold others, column, len.
  induction cards as [|a cards IH]; cbn [filter]; [lia|].
  destruct (negb (ID a =? id)%string), (Status a =? status)%string;
    cbn [andb List.length]; lia.
Qed.

Lemma spliced_ids oth pos mc1 mc2 :
  ID mc1 = ID mc2 ->
  map ID (spliced oth pos mc1) = map ID (spliced oth pos mc2).
Proof.
  intros E. unfold spliced.
  destruct (pos <? len oth); rewrite !map_app; cbn [map]; now rewrite E.
Qed.

(** Two requests for one card that differ in the position only, and whose
    positions clamp to the same index, reposition to the same board. *)
Lemma reposition_by_clamp pre c post update p1 p2 :
  ~ In (ID c) (map ID pre) ->
  moved (Status c) (Position c) (setPosition update p1) = true ->
  moved (Status c) (Position c) (setPosition update p2) = true ->
  clampPos p1 (len (others (pre ++ c :: post) (ID c) (Status update)))
  = clampPos p2 (len (others (pre ++ c :: post) (ID c) (Status update))) ->
  updateCards (ID c) (setPosition update p1) (pre ++ c :: post)
  = updateCards (ID c) (setPosition update p2) (pre ++ c :: post).
Proof.
  intros Hpre Hm1 Hm2 Hclamp.
  rewrite !updateCards_split by auto. rewrite Hm1, Hm2. f_equal.
  rewrite !overwrite_eq. cbn [Title Description Status Position setPosition].
  set (mc1 := mkCard (ID c) (Title update) (Description update)
                (Status update) p1).
  set (mc2 := mkCard (ID c) (Title update) (Description update)
                (Status update) p2).
  set (st := Status update) in *.
  assert (others (pre ++ mc1 :: post) (ID c) st
          = others (pre ++ c :: post) (ID c) st) as Ho1
    by (now apply others_same_id).
  assert (others (pre ++ mc2 :: post) (ID c) st
          = others (pre ++ c :: post) (ID c) st) as Ho2
    by (now apply others_same_id).
  assert (map ID (newOrderOf (pre ++ mc1 :: post) (ID c)
                    (setPosition update p1) mc1)
          = map ID (newOrderOf (pre ++ mc2 :: post) (ID c)
                      (setPosition update p2) mc2)) as Hids.
  { unfold newOrderOf. cbn [Status Position setPosition]. fold st.
    rewrite Ho1, Ho2, Hclamp. now apply spliced_ids. }
  set (no1 := newOrderOf (pre ++ mc1 :: post) (ID c)
                (setPosition update p1) mc1) in *.
  set (no2 := newOrderOf (pre ++ mc2 :: post) (ID c)
                (setPosition update p2) mc2) in *.
  rewrite !map_app. cbn [map]. f_equal; [|f_equal].
  - apply map_ext. intros a. now apply relabel_ext.
  - rewrite (relabel_ext no1 no2) by assumption.
    change mc1 with (setPosition mc2 p1).
    apply relabel_forgets_position.
    unfold no2, newOrderOf. apply spliced_has_moving.
  - apply map_ext. intros a. now apply relabel_ext.
Qed.

(** C3, as stated, fails.  On the reachable board that holds A at position
    0 and C at position 2 in ToDo (B was deleted), asking position 0 for A
    is a request for the place A already has: the test of line 146 skips
    the repositioning and C stays at 2, while asking -5 repositions and
    renumbers C to 1.  Likewise for C, in a column of size 2: position 2 is
    its own and changes nothing, position 1000 moves it to 1. *)
Lemma C3_own_position_is_not_clamped :
  reachable Examples.deletedB /\
  map (fun c => (ID c, Status c, Position c)) Examples.deletedB
  = [("A", "ToDo", 0); ("C", "ToDo", 2)] /\
  len (column "ToDo" Examples.deletedB) = 2 /\
  moved "ToDo" 0 (decodeCard (Examples.move "A" "ToDo" (-5))) = true /\
  moved "ToDo" 2 (decodeCard (Examples.move "C" "ToDo" 1000)) = true /\
  updateCards "A" (decodeCard (Examples.move "A" "ToDo" (-5)))
    Examples.deletedB
  <> updateCards "A" (decodeCard (Examples.move "A" "ToDo" 0))
       Examples.deletedB /\
  updateCards "C" (decodeCard (Examples.move "C" "ToDo" 1000))
    Examples.deletedB
  <> updateCards "C" (decodeCard (Examples.move "C" "ToDo" 2))
       Examples.deletedB.
Proof.
  split; [apply reachable_deletedB|]. do 4 (split; [reflexivity|]).
  split; vm_compute; discriminate.
Qed.

(** C3, amended: the requested position, whatever integer it is, is
    clamped into [0, len(others)], and the update of a card of the board
    never fails on it; two requests that differ in the position only and
    that both trigger the repositioning (neither asks for the status and
    position the card already has) produce the same board as soon as their
    positions clamp to the same index: so does any position at or below 0
    with position 0, and any position at or above the size [k] of the
    target column with position [k]. *)
Theorem C3_clamped pre c post update :
  ~ In (ID c) (map ID pre) ->
  let cards := pre ++ c :: post in
  let n := len (others cards (ID c) (Status update)) in
  let k := len (column (Status update) cards) in
  let request p := updateCards (ID c) (setPosition update p) cards in
  let triggers p :=
    moved (Status c) (Position c) (setPosition update p) = true in
  (forall p, 0 <= clampPos p n <= n) /\
  (forall p, exists cards', request p = Done cards') /\
  (forall p1 p2, triggers p1 -> triggers p2 ->
                 clampPos p1 n = clampPos p2 n -> request p1 = request p2) /\
  (forall p, p <= 0 -> triggers p -> triggers 0 -> request p = request 0) /\
  (forall p, k <= p -> triggers p -> triggers k -> request p = request k).
Proof.
  intros Hpre cards n k request triggers.
  assert (0 <= n) as Hn by apply len_nonneg.
  assert (n <= k) as Hnk by apply others_len_le.
  split; [|split; [|split; [|split]]].
  - intros p. now apply clampPos_range.
  - intros p. unfold request, cards. rewrite updateCards_split by auto.
    eexists. reflexivity.
  - intros p1 p2 H1 H2 Hc. now apply reposition_by_clamp.
  - intros p Hp H1 H2. apply reposition_by_clamp; auto. fold cards n.
    rewrite !clampPos_low by lia. reflexivity.
  - intros p Hp H1 H2. apply reposition_by_clamp; auto. fold cards n.
    rewrite !clampPos_high by lia. reflexivity.
Qed.

Lemma C3_clamped_witness :
  updateCards "B" (Examples.req "ToDo" (-5)) Examples.abc
  = updateCards "B" (Examples.req "ToDo" 0) Examples.abc /\
  updateCards "B" (Examples.req "ToDo" 1000) Examples.abc
  = updateCards "B" (Examples.req "ToDo" 3) Examples.abc.
Proof.
  assert (~ In (ID (mkCard "B" "B" "" "ToDo" 1))
            (map ID [mkCard "A" "A" "" "ToDo" 0])) as Hpre
    by (cbn; intuition discriminate).
  destruct (C3_clamped [mkCard "A" "A" "" "ToDo" 0] (mkCard "B" "B" "" "ToDo" 1)
              [mkCard "C" "C" "" "ToDo" 2] (Examples.req "ToDo" 0) Hpre)
    as (_ & _ & _ & Hlow & Hhigh).
  split.
  - apply (Hlow (-5)); [lia | reflexivity | reflexivity].
  - apply (Hhigh 1000); [vm_compute; discriminate | reflexivity | reflexivity].
Defined.

(** ** C2: the order of "others" *)

Lemma sortByPosition_ascending l : ascending l -> sortByPosition l = l.
Proof.
  induction 1 as [|a l Hl IH Ha]; [reflexivity|].
  cbn [sortByPosition fold_right]. fold (sortByPosition l). rewrite IH.
  destruct l as [|x rest]; [reflexivity|]. cbn [insertByPosition].
  inversion Ha as [|? ? Hax _]; subst.
  destruct (Z.leb_spec (Position a) (Position x)); [reflexivity | lia].
Qed.

(** Where the slice keeps the other cards of the target status in
    ascending position, the handler does what the specification says. *)
Lemma updateCards_meets_spec id update cards :
  (forall oldStatus oldPosition cards1,
     replaceFields id update cards = Some (oldStatus, oldPosition, cards1) ->
     ascending (others cards1 id (Status update))) ->
  updateCards id update cards = specUpdateCards id update cards.
Proof.
  intros Hasc. unfold updateCards, specUpdateCards.
  destruct (replaceFields id update cards)
    as [[[oldStatus oldPosition] cards1]|] eqn:Hrep; [|reflexivity].
  destruct (moved oldStatus oldPosition update); [|reflexivity].
  rewrite (sortByPosition_ascending _ (Hasc _ _ _ eq_refl)).
  apply replaceFields_Some in Hrep
    as (pre & c & post & -> & Hpre & Hid & _ & _ & ->).
  assert (ID (overwrite c update) = id) as Hoid by (now rewrite overwrite_eq).
  rewrite reposition_split, findCardIndex_split, index_split by assumption.
  rewrite buildNewOrder_clamped by (apply clampPos_range, len_nonneg).
  now rewrite reassign_map.
Qed.

(** The scenario of the specification on the board as three creates leave
    it: the slice is in position order and C goes to the top. *)
Lemma scenario_in_creation_order :
  updateCards "C" (decodeCard (Examples.move "C" "ToDo" 0)) Examples.abc
  = Done [mkCard "A" "A" "" "ToDo" 1; mkCard "B" "B" "" "ToDo" 2;
          mkCard "C" "C" "" "ToDo" 0] /\
  specUpdateCards "C" (decodeCard (Examples.move "C" "ToDo" 0)) Examples.abc
  = Done [mkCard "A" "A" "" "ToDo" 1; mkCard "B" "B" "" "ToDo" 2;
          mkCard "C" "C" "" "ToDo" 0].
Proof. split; reflexivity. Qed.

(** C2 at the failing input.  The board is reached by creating B, A and C
    in ToDo and dragging A to the top, so that the column reads A (0),
    B (1), C (2) while the slice holds B, A, C.  Moving C to position 0
    must give C (0), A (1), B (2); the handler, which takes "others" in
    slice order, gives C (0), B (1), A (2). *)
Theorem C2_others_in_slice_order :
  reachable Examples.bac /\
  map (fun c => (ID c, Status c, Position c)) Examples.bac
  = [("B", "ToDo", 1); ("A", "ToDo", 0); ("C", "ToDo", 2)] /\
  others Examples.bac "C" "ToDo"
  = [mkCard "B" "B" "" "ToDo" 1; mkCard "A" "A" "" "ToDo" 0] /\
  updateCards "C" (decodeCard (Examples.move "C" "ToDo" 0)) Examples.bac
  = Done [mkCard "B" "B" "" "ToDo" 1; mkCard "A" "A" "" "ToDo" 2;
          mkCard "C" "C" "" "ToDo" 0] /\
  specUpdateCards "C" (decodeCard (Examples.move "C" "ToDo" 0)) Examples.bac
  = Done [mkCard "B" "B" "" "ToDo" 2; mkCard "A" "A" "" "ToDo" 1;
          mkCard "C" "C" "" "ToDo" 0].
Proof.
  split; [apply reachable_bac|]. repeat split.
Qed.

(** * Further properties of the code *)

(** ** Looking a card up *)

(** X1: [findCardIndex] is a search for the first match: it returns -1
    exactly when no card has the ID, and otherwise an index within the
    slice whose card has the ID while no earlier card has it. *)
Theorem X1_findCardIndex_first_match cards id :
  (findCardIndex cards id = -1 /\ ~ In id (map ID cards)) \/
  (0 <= findCardIndex cards id < len cards /\
   exists c,
     index cards (findCardIndex cards id) = Some c /\ ID c = id /\
     ~ In id (map ID (firstn (Z.to_nat (findCardIndex cards id)) cards))).
Proof.
  destruct (in_dec string_dec id (map ID cards)) as [Hin|Hin].
  - right. apply id_in_split in Hin as (pre & c & post & -> & Hpre & Hid).
    rewrite findCardIndex_split by assumption.
    split.
    + rewrite len_app, len_cons.
      pose proof (len_nonneg pre). pose proof (len_nonneg post). lia.
    + exists c. split; [apply index_split|]. split; [assumption|].
      unfold len. rewrite Nat2Z.id, firstn_app, Nat.sub_diag, firstn_all.
      cbn [firstn]. now rewrite app_nil_r.
  - left. split; [|assumption].
    unfold findCardIndex. generalize 0.
    induction cards as [|a cards IH]; intros i; [reflexivity|].
    cbn [findCardIndexFrom]. cbn [map In] in Hin.
    destruct (String.eqb_spec (ID a) id); [tauto|]. apply IH; tauto.
Qed.

(** ** Delete *)

Lemma delete_filter_absent id cards :
  ~ In id (map ID (filter (fun c => negb (ID c =? id)%string) cards)).
Proof.
  intros F. apply in_map_iff in F as (c & Hc & Hin).
  apply filter_In in Hin as [_ Hin]. rewrite Hc, String.eqb_refl in Hin.
  discriminate.
Qed.

Lemma delete_filter_shorter id cards :
  In id (map ID cards) ->
  len (filter (fun c => negb (ID c =? id)%string) cards) < len cards.
Proof.
  intros Hin. apply id_in_split in Hin as (pre & c & post & -> & _ & Hid).
  rewrite filter_app, !len_app. cbn [filter].
  rewrite Hid, String.eqb_refl. cbn [negb]. rewrite len_cons.
  pose proof (filter_length_le (fun c => negb (ID c =? id)%string) pre).
  pose proof (filter_length_le (fun c => negb (ID c =? id)%string) post).
  unfold len. lia.
Qed.

Lemma deleteCards_present id cards :
  In id (map ID cards) ->
  deleteCards id cards
  = Done (filter (fun c => negb (ID c =? id)%string) cards).
Proof.
  intros Hin. unfold deleteCards.
  pose proof (delete_filter_shorter id cards Hin).
  destruct (Z.eqb_spec (len (filter (fun c => negb (ID c =? id)%string) cards))
              (len cards)); [lia | reflexivity].
Qed.

Lemma filter_id_absent id l :
  ~ In id (map ID l) -> filter (fun c => negb (ID c =? id)%string) l = l.
Proof.
  induction l as [|a l IH]; [reflexivity|]. cbn [map In filter]. intros H.
  destruct (String.eqb_spec (ID a) id); [tauto|]. cbn [negb].
  rewrite IH by tauto. reflexivity.
Qed.

(** X2: the delete handler finds the card exactly when some card has the
    ID.  It then drops every card with that ID and nothing else: a card is
    on the new board iff it was on the old one under another ID, so no
    field of a remaining card changes (no renumbering); and on a board of
    distinct IDs exactly one card goes and the IDs stay distinct. *)
Theorem X2_delete_removes_the_id id cards :
  (deleteCards id cards = CardNotFound /\ ~ In id (map ID cards)) \/
  (exists cards',
     deleteCards id cards = Done cards' /\
     In id (map ID cards) /\
     ~ In id (map ID cards') /\
     (forall c, In c cards' <-> In c cards /\ ID c <> id) /\
     (unique_ids cards -> len cards' = len cards - 1 /\ unique_ids cards')).
Proof.
  destruct (in_dec string_dec id (map ID cards)) as [Hin|Hin].
  - right. eexists. split; [now apply deleteCards_present|].
    split; [assumption|]. split; [apply delete_filter_absent|]. split.
    + intros c. rewrite filter_In. split; intros [H1 H2]; split; auto.
      * intros E. rewrite E, String.eqb_refl in H2. discriminate.
      * now destruct (String.eqb_spec (ID c) id).
    + intros Hu. split; [|now apply NoDup_map_filter].
      apply id_in_split in Hin as (pre & c & post & -> & Hpre & Hid).
      assert (~ In id (map ID post)) as Hpost.
      { unfold unique_ids in Hu. rewrite map_app in Hu. cbn [map] in Hu.
        apply NoDup_remove_2 in Hu. rewrite Hid in Hu.
        intros F; apply Hu, in_or_app; now right. }
      rewrite filter_app. cbn [filter]. rewrite Hid, String.eqb_refl.
      cbn [negb]. rewrite !filter_id_absent by assumption.
      rewrite !len_app, len_cons. lia.
  - left. split; [now apply deleteCards_absent | assumption].
Qed.

Lemma X2_delete_removes_the_id_witness :
  exists cards',
    deleteCards "B" Examples.abc = Done cards' /\
    ~ In "B" (map ID cards') /\ len cards' = 2.
Proof.
  assert (unique_ids Examples.abc) as Hu by distinct_ids.
  destruct (X2_delete_removes_the_id "B" Examples.abc)
    as [[H _]|(cards' & Hdel & _ & Habs & _ & Hlen)].
  - discriminate H.
  - exists cards'. split; [exact Hdel|]. split; [exact Habs|].
    exact (proj1 (Hlen Hu)).
Defined.

(** X3: once a delete has succeeded the ID is gone for good: a second
    delete and any update of that ID answer CardNotFound. *)
Theorem X3_deleted_id_is_unknown id cards cards' update :
  deleteCards id cards = Done cards' ->
  deleteCards id cards' = CardNotFound /\
  updateCards id update cards' = CardNotFound.
Proof.
  intros Hdel.
  assert (~ In id (map ID cards')) as Habs.
  { unfold deleteCards in Hdel.
    destruct (len _ =? len cards); inversion Hdel.
    apply delete_filter_absent. }
  split; [now apply deleteCards_absent|].
  unfold updateCards.
  apply replaceFields_None with (u := update) in Habs. now rewrite Habs.
Qed.

Lemma X3_deleted_id_is_unknown_witness :
  deleteCards "B" Examples.deletedB = CardNotFound /\
  updateCards "B" (Examples.req "Done" 0) Examples.deletedB = CardNotFound.
Proof.
  apply (X3_deleted_id_is_unknown "B" Examples.createdABC Examples.deletedB
           (Examples.req "Done" 0)).
  reflexivity.
Defined.

(** X4: deleting the card a create has just added, under an ID that was
    not on the board, gives the board back as it was. *)
Theorem X4_create_then_delete newID card cards :
  ~ In newID (map ID cards) ->
  deleteCards newID (snd (createCards newID card cards)) = Done cards.
Proof.
  intros Hfresh. unfold createCards. cbn [snd].
  rewrite deleteCards_present.
  - rewrite filter_app. cbn [filter ID setPosition setID].
    rewrite String.eqb_refl. cbn [negb].
    rewrite filter_id_absent by assumption. now rewrite app_nil_r.
  - rewrite map_app. apply in_or_app. right. now left.
Qed.

Lemma X4_create_then_delete_witness :
  deleteCards "D" (snd (createCards "D" (Examples.req "Doing" 9) Examples.abc))
  = Done Examples.abc.
Proof.
  apply (X4_create_then_delete "D" (Examples.req "Doing" 9) Examples.abc).
  cbn. intuition discriminate.
Defined.

(** ** Update *)

(** X5: an update neither adds nor drops a card and never touches an ID:
    the saved slice has the IDs of the loaded one, in the same order, so
    distinct IDs stay distinct. *)
Theorem X5_update_keeps_ids id update cards cards' :
  updateCards id update cards = Done cards' ->
  map ID cards' = map ID cards /\
  len cards' = len cards /\
  (unique_ids cards -> unique_ids cards').
Proof.
  intros Hup. pose proof (updateCards_ids _ _ _ _ Hup) as Hids.
  split; [exact Hids|]. split.
  - now rewrite <- (len_map ID cards'), Hids, len_map.
  - unfold unique_ids. now rewrite Hids.
Qed.

Lemma X5_update_keeps_ids_witness :
  map ID Examples.bac = ["B"; "A"; "C"] /\ len Examples.bac = 3.
Proof.
  destruct (X5_update_keeps_ids "A" (decodeCard (Examples.move "A" "ToDo" 0))
              Examples.createdBAC Examples.bac eq_refl) as (H1 & H2 & _).
  split; [exact H1 | exact H2].
Defined.


Lemma others_no_id cards id status :
  ~ In id (map ID (others cards id status)).
Proof.
  intros F. apply in_map_iff in F as (c & Hc & Hin).
  apply filter_In in Hin as [_ Hin]. rewrite Hc, String.eqb_refl in Hin.
  discriminate.
Qed.

Lemma in_skipn {A : Type} (x : A) n l : In x (skipn n l) -> In x l.
Proof.
  intros H. rewrite <- (firstn_skipn n l). apply in_or_app. now right.
Qed.

(** The loop gives the moving card the index it was spliced in at. *)
Lemma relabel_moving oth pos mc mc' status :
  ~ In (ID mc) (map ID oth) -> ID mc' = ID mc -> 0 <= pos <= len oth ->
  relabel 0 (spliced oth pos mc') status mc
  = setStatus (setPosition mc pos) status.
Proof.
  intros Hoth Hid Hpos. rewrite spliced_splice by assumption.
  assert (~ In (ID mc) (map ID (skipn (Z.to_nat pos) oth))) as Hskip.
  { intros F. apply Hoth. apply in_map_iff in F as (x & Hx & Hin).
    apply in_map_iff. exists x. split; [assumption|].
    now apply in_skipn in Hin. }
  rewrite (relabel_at _ 0 status mc mc' _ Hid Hskip).
  f_equal. f_equal. unfold len in *. rewrite length_firstn. lia.
Qed.

(** X7: when an update repositions, the card ends with the title, the
    description and the status of the request and with the requested
    position clamped into [0, len(others)] as its position, at the place
    in the slice it had before.  This holds on every board, repeated IDs
    or not. *)
Theorem X7_moved_card_lands_at_clamp pre c post update :
  ~ In (ID c) (map ID pre) ->
  moved (Status c) (Position c) update = true ->
  exists cards',
    updateCards (ID c) update (pre ++ c :: post) = Done cards' /\
    nth_error cards' (List.length pre)
    = Some (mkCard (ID c) (Title update) (Description update)
              (Status update)
              (clampPos (Position update)
                 (len (others (pre ++ c :: post) (ID c) (Status update))))).
Proof.
  intros Hpre Hmoved. eexists. split.
  - rewrite updateCards_split by auto. rewrite Hmoved. reflexivity.
  - rewrite map_app. cbn [map].
    rewrite nth_error_app2 by (rewrite length_map; lia).
    rewrite length_map, Nat.sub_diag. cbn [nth_error]. f_equal.
    assert (ID (overwrite c update) = ID c) as Hoid
      by (now rewrite overwrite_eq).
    unfold newOrderOf.
    rewrite (others_same_id (ID c) (Status update) pre (overwrite c update) c)
      by auto.
    rewrite relabel_moving.
    + now rewrite overwrite_eq.
    + rewrite Hoid. apply others_no_id.
    + reflexivity.
    + apply clampPos_range, len_nonneg.
Qed.

Lemma X7_moved_card_lands_at_clamp_witness :
  exists cards',
    updateCards "A" (Examples.req "ToDo" 1000) Examples.abc = Done cards' /\
    nth_error cards' 0 = Some (mkCard "A" "t" "d" "ToDo" 2).
Proof.
  refine (X7_moved_card_lands_at_clamp [] (mkCard "A" "A" "" "ToDo" 0)
            [mkCard "B" "B" "" "ToDo" 1; mkCard "C" "C" "" "ToDo" 2]
            (Examples.req "ToDo" 1000) _ eq_refl).
  cbn. tauto.
Defined.

Lemma nth_error_middle_other {A : Type} (pre post : list A) (x y : A) k :
  k <> List.length pre ->
  nth_error (pre ++ x :: post) k = nth_error (pre ++ y :: post) k.
Proof.
  intros Hk. destruct (Nat.lt_ge_cases k (List.length pre)) as [Hlt|Hge].
  - now rewrite !nth_error_app1 by assumption.
  - rewrite !nth_error_app2 by assumption.
    destruct (k - List.length pre)%nat eqn:E; [lia | reflexivity].
Qed.

(** X8: on a board of distinct IDs an update touches the moving card and
    the cards of the target status only.  Every other card keeps its place
    in the slice and all its fields; in particular the column the card
    leaves is not renumbered, and keeps the gap. *)
Theorem X8_update_leaves_other_columns id update cards cards' :
  unique_ids cards ->
  updateCards id update cards = Done cards' ->
  forall k c,
    nth_error cards k = Some c ->
    ID c <> id -> Status c <> Status update ->
    nth_error cards' k = Some c.
Proof.
  intros Hu Hup k c Hk Hcid Hcst.
  destruct (in_dec string_dec id (map ID cards)) as [Hin|Hin].
  2:{ apply replaceFields_None with (u := update) in Hin.
      unfold updateCards in Hup. rewrite Hin in Hup. discriminate. }
  apply id_in_split in Hin as (pre & c0 & post & -> & Hpre & Hid).
  rewrite updateCards_split in Hup by assumption.
  inversion Hup as [E]. clear Hup E.
  set (mc := overwrite c0 update) in *.
  assert (ID mc = id) as Hmid by (unfold mc; now rewrite overwrite_eq).
  assert (Status mc = Status update) as Hmst
    by (unfold mc; now rewrite overwrite_eq).
  assert (unique_ids (pre ++ mc :: post)) as Hu1.
  { unfold unique_ids in *. rewrite map_app in *. cbn [map] in *.
    now rewrite Hmid, <- Hid. }
  assert (k <> List.length pre) as Hkpre.
  { intros ->. rewrite nth_error_app2, Nat.sub_diag in Hk by lia.
    cbn in Hk. congruence. }
  assert (nth_error (pre ++ mc :: post) k = Some c) as Hk1
    by (now rewrite (nth_error_middle_other pre post mc c0 k Hkpre)).
  destruct (moved (Status c0) (Position c0) update); [|exact Hk1].
  rewrite nth_error_map, Hk1. cbn [option_map]. f_equal.
  apply relabel_notin. intros F.
  apply (touched_iff pre post mc id update Hu1 Hmid Hmst c) in F;
    [contradiction|].
  now apply nth_error_In in Hk1.
Qed.

Lemma X8_update_leaves_other_columns_witness :
  nth_error
    (Examples.cardsOf
       (updateCards "A" (decodeCard (Examples.move "A" "Doing" 5))
          Examples.abc)) 2
  = Some (mkCard "C" "C" "" "ToDo" 2).
Proof.
  assert (unique_ids Examples.abc) as Hu by distinct_ids.
  apply (X8_update_leaves_other_columns "A"
           (decodeCard (Examples.move "A" "Doing" 5)) Examples.abc _ Hu
           eq_refl 2 (mkCard "C" "C" "" "ToDo" 2) eq_refl);
    cbn; discriminate.
Defined.

(** X9: whatever the board, an update changes the title and the description
    of one card only, the first with the ID; every other card keeps its ID,
    its title and its description at its place in the slice. *)
Theorem X9_update_keeps_other_texts id update cards cards' :
  updateCards id update cards = Done cards' ->
  forall k c,
    nth_error cards k = Some c ->
    Z.of_nat k <> findCardIndex cards id ->
    exists c',
      nth_error cards' k = Some c' /\
      ID c' = ID c /\ Title c' = Title c /\ Description c' = Description c.
Proof.
  intros Hup k c Hk Hidx.
  destruct (in_dec string_dec id (map ID cards)) as [Hin|Hin].
  2:{ apply replaceFields_None with (u := update) in Hin.
      unfold updateCards in Hup. rewrite Hin in Hup. discriminate. }
  apply id_in_split in Hin as (pre & c0 & post & -> & Hpre & Hid).
  rewrite updateCards_split in Hup by assumption.
  inversion Hup as [E]. clear Hup E.
  rewrite findCardIndex_split in Hidx by assumption.
  assert (k <> List.length pre) as Hkpre by (unfold len in Hidx; lia).
  assert (nth_error (pre ++ overwrite c0 update :: post) k = Some c) as Hk1
    by (now rewrite
          (nth_error_middle_other pre post (overwrite c0 update) c0 k Hkpre)).
  destruct (moved (Status c0) (Position c0) update).
  - eexists. rewrite nth_error_map, Hk1. cbn [option_map].
    split; [reflexivity|].
    now rewrite relabel_ID, relabel_Title, relabel_Description.
  - exists c. auto.
Qed.

Lemma X9_update_keeps_other_texts_witness :
  exists c',
    nth_error Examples.bac 0 = Some c' /\
    ID c' = "B" /\ Title c' = "B" /\ Description c' = "".
Proof.
  apply (X9_update_keeps_other_texts "A"
           (decodeCard (Examples.move "A" "ToDo" 0)) Examples.createdBAC
           Examples.bac eq_refl 0 (mkCard "B" "B" "" "ToDo" 0) eq_refl).
  vm_compute. discriminate.
Defined.

(** ** Repeating an update *)

Lemma id_in_split_last id l :
  In id (map ID l) ->
  exists l1 nc l2,
    l = l1 ++ nc :: l2 /\ ID nc = id /\ ~ In id (map ID l2).
Proof.
  induction l as [|a l IH]; cbn [map In]; [tauto|]. intros H.
  destruct (in_dec string_dec id (map ID l)) as [Hin|Hin].
  - destruct (IH Hin) as (l1 & nc & l2 & -> & Hid & Hl2).
    exists (a :: l1), nc, l2. auto.
  - exists [], a, l. cbn. repeat split; tauto.
Qed.

(** Running the renumbering loop twice with one [newOrder] is running it
    once. *)
Lemma relabel_idem newOrder i status c :
  relabel i newOrder status (relabel i newOrder status c)
  = relabel i newOrder status c.
Proof.
  destruct (in_dec string_dec (ID c) (map ID newOrder)) as [Hin|Hin].
  - apply id_in_split_last in Hin as (l1 & nc & l2 & -> & Hid & Hl2).
    rewrite (relabel_at l1 i status c nc l2 Hid Hl2).
    rewrite (relabel_at l1 i status
               (setStatus (setPosition c (i + len l1)) status) nc l2
               Hid Hl2).
    reflexivity.
  - now rewrite !(relabel_notin newOrder i status c Hin).
Qed.

Lemma others_map (g : Card -> Card) id status l :
  (forall c, In c l ->
     ID (g c) = ID c /\
     (Status (g c) =? status)%string = (Status c =? status)%string) ->
  others (map g l) id status = map g (others l id status).
Proof.
  unfold others. induction l as [|a l IH]; intros H; [reflexivity|].
  cbn [map filter].
  destruct (H a (or_introl eq_refl)) as [-> ->].
  rewrite IH by (intros c Hc; apply H; now right).
  now destruct (negb (ID a =? id)%string && (Status a =? status)%string).
Qed.

Lemma spliced_ids_gen oth1 oth2 pos mc1 mc2 :
  map ID oth1 = map ID oth2 -> ID mc1 = ID mc2 ->
  map ID (spliced oth1 pos mc1) = map ID (spliced oth2 pos mc2).
Proof.
  intros Ho Hm. unfold spliced.
  assert (len oth1 = len oth2) as ->
    by (now rewrite <- (len_map ID oth1), Ho, len_map).
  destruct (pos <? len oth2); rewrite !map_app; cbn [map];
    now rewrite <- ?firstn_map, <- ?skipn_map, Ho, Hm.
Qed.

(** X10: on a board of distinct IDs the update handler is idempotent:
    sending the same request again leaves the board the first request
    produced (the second pass either skips the repositioning or rebuilds
    the same order). *)
Theorem X10_update_idempotent id update cards cards' :
  unique_ids cards ->
  updateCards id update cards = Done cards' ->
  updateCards id update cards' = Done cards'.
Proof.
  intros Hu Hup.
  destruct (in_dec string_dec id (map ID cards)) as [Hin|Hin].
  2:{ apply replaceFields_None with (u := update) in Hin.
      unfold updateCards in Hup. rewrite Hin in Hup. discriminate. }
  apply id_in_split in Hin as (pre & c & post & -> & Hpre & Hid).
  rewrite updateCards_split in Hup by assumption.
  inversion Hup as [E]. clear Hup.
  set (mc := overwrite c update) in *.
  set (st := Status update) in *.
  assert (ID mc = id) as Hmid by (unfold mc; now rewrite overwrite_eq).
  assert (Status mc = st) as Hmst by (unfold mc; now rewrite overwrite_eq).
  assert (Position mc = Position update) as Hmpos
    by (unfold mc; now rewrite overwrite_eq).
  assert (forall x, ID x = id -> overwrite x update = mc) as Hover.
  { intros x Hx. unfold mc. rewrite !overwrite_eq. congruence. }
  destruct (moved (Status c) (Position c) update).
  - (* the first request repositioned *)
    assert (unique_ids (pre ++ mc :: post)) as Hu1.
    { unfold unique_ids in *. rewrite map_app in *. cbn [map] in *.
      now rewrite Hmid, <- Hid. }
    set (oth := others (pre ++ mc :: post) id st) in *.
    set (no := newOrderOf (pre ++ mc :: post) id update mc) in *.
    set (g := relabel 0 no st) in *.
    assert (forall x, ID (g x) = ID x) as HgID
      by (intros x; apply relabel_ID).
    assert (g mc = setStatus (setPosition mc
                                (clampPos (Position update) (len oth))) st)
      as Hgmc.
    { unfold g, no, newOrderOf. fold st oth. apply relabel_moving.
      - rewrite Hmid. apply others_no_id.
      - reflexivity.
      - apply clampPos_range, len_nonneg. }
    assert (~ In id (map ID (map g pre))) as Hgpre.
    { rewrite map_map. erewrite map_ext; [exact Hpre|]. apply HgID. }
    rewrite map_app. cbn [map].
    rewrite updateCards_split by (rewrite ?HgID; auto).
    rewrite (Hover (g mc)) by (now rewrite HgID).
    f_equal.
    destruct (moved (Status (g mc)) (Position (g mc)) update) eqn:Hm2.
    + (* the second request repositions again *)
      assert (map ID (newOrderOf (map g pre ++ mc :: map g post) id update mc)
              = map ID no) as Hids.
      { unfold no, newOrderOf. fold st oth.
        assert (others (map g pre ++ mc :: map g post) id st = map g oth)
          as ->.
        { unfold oth. rewrite !others_split by assumption.
          rewrite map_app. f_equal; apply others_map; intros x Hx;
            (split; [apply HgID|]);
            apply (relabel_column_iff pre post mc id update Hu1 Hmid Hmst);
            apply in_or_app; [left | right; right]; assumption. }
        rewrite len_map. apply spliced_ids_gen; [|reflexivity].
        rewrite map_map. apply map_ext. apply HgID. }
      rewrite !map_app. cbn [map]. rewrite !map_map.
      f_equal; [|f_equal].
      * apply map_ext. intros x.
        rewrite (relabel_ext _ no) by assumption. apply relabel_idem.
      * now rewrite (relabel_ext _ no) by assumption.
      * apply map_ext. intros x.
        rewrite (relabel_ext _ no) by assumption. apply relabel_idem.
    + (* the card is where the request wants it *)
      f_equal. f_equal.
      unfold moved in Hm2. apply orb_false_elim in Hm2 as [_ Hp].
      apply negb_false_iff, Z.eqb_eq in Hp.
      rewrite Hgmc in Hp |- *. cbn [Position setStatus setPosition] in Hp.
      rewrite Hp, <- Hmpos, <- Hmst. destruct mc; reflexivity.
  - (* the first request changed the texts only *)
    rewrite updateCards_split by assumption.
    rewrite (Hover mc Hmid), Hmst, Hmpos.
    assert (moved st (Position update) update = false) as ->.
    { unfold moved. fold st. now rewrite String.eqb_refl, Z.eqb_refl. }
    reflexivity.
Qed.

Lemma X10_update_idempotent_witness :
  updateCards "A" (decodeCard (Examples.move "A" "ToDo" 0)) Examples.bac
  = Done Examples.bac.
Proof.
  apply (X10_update_idempotent "A" (decodeCard (Examples.move "A" "ToDo" 0))
           Examples.createdBAC Examples.bac).
  - distinct_ids.
  - reflexivity.
Defined.

(** ** Create on a dense board *)

(** X11: on a board of distinct IDs whose columns are all dense, a create
    with an ID that is not on the board (and a slice shorter than the
    largest [int]) gives the new card the size of its column as position,
    and leaves a board of distinct IDs whose columns are all dense. *)
Theorem X11_create_keeps_dense newID card cards :
  unique_ids cards -> dense_board cards ->
  ~ In newID (map ID cards) -> len cards < GoInt.max_int ->
  Position (fst (createCards newID card cards))
  = len (column (Status card) cards) /\
  unique_ids (snd (createCards newID card cards)) /\
  dense_board (snd (createCards newID card cards)).
Proof.
  intros Hu Hd Hfresh Hlen. split; [|split].
  - unfold createCards. cbn [fst Position setPosition Status setID].
    rewrite maxPosLoop_no_overflow.
    + rewrite maxPosLoop_dense by apply Hd. lia.
    + intros c Hc. pose proof (dense_bound _ _ (Hd (Status card)) Hc).
      pose proof (column_len_le (Status card) cards). lia.
  - now apply create_unique.
  - now apply create_dense.
Qed.

Lemma X11_create_keeps_dense_witness :
  Position (fst (createCards "D" (Examples.req "ToDo" 0) Examples.movedC)) = 3
  /\ dense_board
       (snd (createCards "D" (Examples.req "ToDo" 0) Examples.movedC)).
Proof.
  destruct (in_place_invariant _ reachable_in_place_movedC) as [Hu Hd].
  destruct (X11_create_keeps_dense "D" (Examples.req "ToDo" 0) Examples.movedC
              Hu Hd) as (H1 & _ & H3).
  - vm_compute. intuition discriminate.
  - small_board.
  - split; [exact H1 | exact H3].
Defined.

(** ** The handlers and the store *)

Lemma handlers_load_failed env s e s1 id j :
  LoadBoard env s = (inl e, s1) ->
  getBoard env s = (Reply 500 (Text "Failed to load board"), s1) /\
  postCard env (Some j) s = (Reply 500 Empty, s1) /\
  putCard env id (Some j) s = (Reply 500 Empty, s1) /\
  deleteCard env id s = (Reply 500 Empty, s1).
Proof.
  intros Hload. split; [|split; [|split]].
  - unfold getBoard, bind. now rewrite Hload.
  - unfold postCard, bind at 1. now rewrite Hload.
  - unfold putCard, bind at 1. now rewrite Hload.
  - unfold deleteCard, bind at 1. now rewrite Hload.
Qed.

(** X12: when the board cannot be loaded, whatever the reason (store
    unreachable, an API error other than a missing key, a body that cannot
    be read, a document that does not parse), every handler answers 500
    after its one [GetObject] call on the client; it makes no [PutObject]
    call, and the object is untouched. *)
Theorem X12_load_failure_writes_nothing env s e s1 id j :
  LoadBoard env s = (inl e, s1) ->
  getBoard env s = (Reply 500 (Text "Failed to load board"), s1) /\
  postCard env (Some j) s = (Reply 500 Empty, s1) /\
  putCard env id (Some j) s = (Reply 500 Empty, s1) /\
  deleteCard env id s = (Reply 500 Empty, s1) /\
  object s1 = object s /\
  calls s1 = calls s ++ [GetObject].
Proof.
  intros Hload.
  pose proof (LoadBoard_store env s) as Hs. rewrite Hload in Hs. cbn in Hs.
  destruct (handlers_load_failed env s e s1 id j Hload) as (H1 & H2 & H3 & H4).
  repeat (split; [assumption|]). subst s1. split; reflexivity.
Qed.

Lemma X12_load_failure_writes_nothing_witness :
  let env := mkEnv (Some Unreachable) false 0 in
  let s := mkS3 (Some (Parses (mkBoard Examples.abc))) [] in
  let s1 := mkS3 (Some (Parses (mkBoard Examples.abc))) [GetObject] in
  postCard env (Some (Examples.newCard "D" "ToDo")) s = (Reply 500 Empty, s1)
  /\ deleteCard env "A" s = (Reply 500 Empty, s1).
Proof.
  intros env s s1.
  destruct (X12_load_failure_writes_nothing env s ErrLoading s1 "A"
              (Examples.newCard "D" "ToDo") eq_refl)
    as (_ & H1 & _ & H2 & _).
  split; [exact H1 | exact H2].
Defined.

Lemma LoadBoard_object env s :
  object (snd (LoadBoard env s)) = object s.
Proof. now rewrite LoadBoard_store. Qed.

(** X13: when the write to the store fails, no mutating handler reports
    success and the object is left as it was: create answers 400 or 500,
    update 400, 404 or 500, delete 404 or 500. *)
Theorem X13_save_failure_is_reported env reqBody id s :
  putFault env = true ->
  (object (snd (postCard env reqBody s)) = object s /\
   exists code, fst (postCard env reqBody s) = Reply code Empty /\
                (code = 400 \/ code = 500)) /\
  (object (snd (putCard env id reqBody s)) = object s /\
   exists code, fst (putCard env id reqBody s) = Reply code Empty /\
                (code = 400 \/ code = 404 \/ code = 500)) /\
  (object (snd (deleteCard env id s)) = object s /\
   exists code, fst (deleteCard env id s) = Reply code Empty /\
                (code = 404 \/ code = 500)).
Proof.
  intros Hput.
  pose proof (LoadBoard_object env s) as Hobj.
  split; [|split].
  - destruct reqBody as [j|]; [|split; [reflexivity | exists 400; auto]].
    destruct (LoadBoard env s) as [[e|board] s1] eqn:Hload; cbn in Hobj.
    + destruct (handlers_load_failed env s e s1 id j Hload) as (_ & -> & _).
      split; [exact Hobj | exists 500; auto].
    + rewrite (postCard_loaded _ _ _ _ _ Hload), Hput.
      destruct (createCards (generateID (now env)) (decodeCard j)
                  (Cards board)).
      split; [exact Hobj | exists 500; auto].
  - destruct reqBody as [j|]; [|split; [reflexivity | exists 400; auto]].
    destruct (LoadBoard env s) as [[e|board] s1] eqn:Hload; cbn in Hobj.
    + destruct (handlers_load_failed env s e s1 id j Hload)
        as (_ & _ & -> & _).
      split; [exact Hobj | exists 500; auto].
    + rewrite (putCard_loaded _ _ _ _ _ _ Hload).
      pose proof (updateCards_no_panic id (decodeCard j) (Cards board)) as Hp.
      destruct (updateCards id (decodeCard j) (Cards board));
        [|split; [exact Hobj | exists 404; auto] | contradiction].
      rewrite finish_Done, Hput. split; [exact Hobj | exists 500; auto].
  - destruct (LoadBoard env s) as [[e|board] s1] eqn:Hload; cbn in Hobj.
    + destruct (handlers_load_failed env s e s1 id
                  (mkCardJSON None None None None None) Hload)
        as (_ & _ & _ & ->).
      split; [exact Hobj | exists 500; auto].
    + rewrite (deleteCard_loaded _ _ _ _ _ Hload).
      destruct (deleteCards id (Cards board)) eqn:Hdel;
        [|split; [exact Hobj | exists 404; auto]|].
      * rewrite finish_Done, Hput. split; [exact Hobj | exists 500; auto].
      * unfold deleteCards in Hdel. destruct (_ =? _) in Hdel; discriminate.
Qed.

Lemma X13_save_failure_is_reported_witness :
  let env := mkEnv None true 9 in
  let s := mkS3 (Some (Parses (mkBoard Examples.abc))) [] in
  object (snd (putCard env "A" (Some (Examples.move "A" "Done" 0)) s))
  = Some (Parses (mkBoard Examples.abc)) /\
  exists code,
    fst (putCard env "A" (Some (Examples.move "A" "Done" 0)) s)
    = Reply code Empty /\ (code = 400 \/ code = 404 \/ code = 500).
Proof.
  intros env s.
  exact (proj1 (proj2 (X13_save_failure_is_reported env
                         (Some (Examples.move "A" "Done" 0)) "A" s eq_refl))).
Defined.

Lemma LoadBoard_state env s r s1 :
  LoadBoard env s = (r, s1) -> s1 = mkS3 (object s) (calls s ++ [GetObject]).
Proof.
  intros H. pose proof (LoadBoard_store env s) as Hs. now rewrite H in Hs.
Qed.

Lemma finish_one_cycle env s o :
  o <> RuntimePanic ->
  one_cycle env s
    (finish env o (mkS3 (object s) (calls s ++ [GetObject]))).
Proof.
  intros Hp. destruct o as [cards| |]; [| |contradiction].
  - right; right. exists (mkBoard cards). rewrite finish_Done.
    destruct (putFault env); cbn; rewrite <- app_assoc; split; reflexivity.
  - right; left. split; reflexivity.
Qed.

(** X14: every handler is one load, mutate, save cycle at most.  During a
    request the handler makes no call on the S3 client (the body does not
    decode), or one [GetObject] call, or one [GetObject] call followed by
    one [PutObject] call with a whole board; the object changes only
    through that write, when it succeeds, and is then the board written.
    GET /api/board makes its one [GetObject] call and no [PutObject]
    call. *)
Theorem X14_one_cycle_per_request env reqBody id s :
  one_cycle env s (postCard env reqBody s) /\
  one_cycle env s (putCard env id reqBody s) /\
  one_cycle env s (deleteCard env id s) /\
  calls (snd (getBoard env s)) = calls s ++ [GetObject] /\
  object (snd (getBoard env s)) = object s.
Proof.
  destruct (LoadBoard env s) as [[e|board] s1] eqn:Hload;
    pose proof (LoadBoard_state _ _ _ _ Hload) as Hs1.
  - (* the load fails *)
    destruct (handlers_load_failed env s e s1 id
                (mkCardJSON None None None None None) Hload)
      as (Hg & _ & _ & Hd).
    rewrite Hg, Hd. subst s1.
    split; [|split; [|split; [|split]]]; try reflexivity.
    + destruct reqBody as [j|]; [|left; split; reflexivity].
      destruct (handlers_load_failed env s e _ id j Hload) as (_ & -> & _).
      right; left; split; reflexivity.
    + destruct reqBody as [j|]; [|left; split; reflexivity].
      destruct (handlers_load_failed env s e _ id j Hload)
        as (_ & _ & -> & _).
      right; left; split; reflexivity.
    + right; left; split; reflexivity.
  - (* the board is loaded *)
    split; [|split; [|split; [|split]]].
    + destruct reqBody as [j|]; [|left; split; reflexivity].
      rewrite (postCard_loaded _ _ _ _ _ Hload).
      destruct (createCards (generateID (now env)) (decodeCard j) (Cards board))
        as [card cards].
      right; right. exists (mkBoard cards). subst s1.
      destruct (putFault env); cbn; rewrite <- app_assoc; split; reflexivity.
    + destruct reqBody as [j|]; [|left; split; reflexivity].
      rewrite (putCard_loaded _ _ _ _ _ _ Hload). subst s1.
      apply finish_one_cycle, updateCards_no_panic.
    + rewrite (deleteCard_loaded _ _ _ _ _ Hload). subst s1.
      apply finish_one_cycle. unfold deleteCards.
      destruct (_ =? _); discriminate.
    + unfold getBoard, bind. rewrite Hload. subst s1. reflexivity.
    + unfold getBoard, bind. rewrite Hload. subst s1. reflexivity.
Qed.

(** ** Identifiers *)

(** X16: [generateID] gives different clock readings different IDs.  So on
    a board whose IDs are distinct and all come from readings before [t],
    creating a card at reading [t] keeps the IDs distinct, and the IDs of
    the new board all come from readings up to [t]. *)
Theorem X16_generateID_injective t card cards :
  (forall a b, a <> b -> generateID a <> generateID b) /\
  (unique_ids cards ->
   (forall c, In c cards -> exists t', t' < t /\ ID c = generateID t') ->
   unique_ids (snd (createCards (generateID t) card cards)) /\
   forall c, In c (snd (createCards (generateID t) card cards)) ->
             exists t', t' <= t /\ ID c = generateID t').
Proof.
  assert (forall a b, a <> b -> generateID a <> generateID b) as Hinj.
  { intros a b Hab E. apply Hab. unfold generateID in E.
    apply (f_equal NilZero.int_of_string) in E.
    destruct (to_int_not_nil a) as [Ha1 Ha2].
    destruct (to_int_not_nil b) as [Hb1 Hb2].
    rewrite !NilZero.isi in E by assumption.
    inversion E as [E']. now apply DecimalZ.to_int_inj. }
  split; [exact Hinj|].
  intros Hu Hold. split.
  - apply create_unique; [assumption|]. intros F.
    apply in_map_iff in F as (c & Hc & Hin).
    destruct (Hold c Hin) as (t' & Hlt & Hid).
    apply (Hinj t' t); [lia | congruence].
  - unfold createCards. cbn [snd]. intros c Hin.
    apply in_app_or in Hin as [Hin|[<-|[]]].
    + destruct (Hold c Hin) as (t' & Hlt & Hid). exists t'. split; [lia|auto].
    + exists t. split; [lia | reflexivity].
Qed.

Lemma X16_generateID_injective_witness :
  generateID 1700000000000000001 <> generateID 1700000000000000002 /\
  unique_ids
    (snd (createCards (generateID 2) (Examples.req "ToDo" 0)
            (snd (createCards (generateID 1) (Examples.req "ToDo" 0) [])))).
Proof.
  split.
  - apply (proj1 (X16_generateID_injective 0 (Examples.req "ToDo" 0) [])).
    lia.
  - apply (proj2 (X16_generateID_injective 2 (Examples.req "ToDo" 0)
                    (snd (createCards (generateID 1)
                            (Examples.req "ToDo" 0) [])))).
    + distinct_ids.
    + intros c [<-|[]]. exists 1. split; [lia | reflexivity].
Defined.

(** ** Clamping *)

(** X17: clamping is the projection onto [0, n]: [min (max pos 0) n]
    for every [pos] and [n].  It is therefore monotone (a larger requested
    position never lands before a smaller one) and idempotent. *)
Theorem X17_clampPos_projection pos pos' n :
  clampPos pos n = Z.min (Z.max pos 0) n /\
  (pos <= pos' -> clampPos pos n <= clampPos pos' n) /\
  clampPos (clampPos pos n) n = clampPos pos n.
Proof.
  assert (forall p, clampPos p n = Z.min (Z.max p 0) n) as H.
  { intros p. unfold clampPos.
    destruct (Z.ltb_spec p 0).
    - destruct (Z.gtb_spec 0 n); lia.
    - destruct (Z.gtb_spec p n); lia. }
  split; [apply H|]. split.
  - intros Hle. rewrite !H. lia.
  - rewrite !H. lia.
Qed.

Lemma X17_clampPos_projection_witness :
  clampPos (-5) 2 <= clampPos 1000 2.
Proof.
  apply (proj1 (proj2 (X17_clampPos_projection (-5) 1000 2))). lia.
Defined.

(** ** What every handler keeps: distinct positions within a column *)

Lemma filter_swap {A : Type} (f g : A -> bool) l :
  filter f (filter g l) = filter g (filter f l).
Proof.
  induction l as [|a l IH]; [reflexivity|]. cbn [filter].
  destruct (f a) eqn:Ef, (g a) eqn:Eg; cbn [filter];
    rewrite ?Ef, ?Eg, IH; reflexivity.
Qed.

Lemma NoDup_snoc {A : Type} (l : list A) (x : A) :
  NoDup l -> ~ In x l -> NoDup (l ++ [x]).
Proof.
  intros Hl Hx. eapply Permutation_NoDup; [apply Permutation_cons_append|].
  now constructor.
Qed.

Lemma create_positions newID card cards :
  positions_distinct cards -> positions_nonneg cards ->
  (forall c, In c (column (Status card) cards) ->
             Position c < GoInt.max_int) ->
  positions_distinct (snd (createCards newID card cards)) /\
  positions_nonneg (snd (createCards newID card cards)).
Proof.
  intros Hd Hn Hmax.
  assert (forall c, In c (column (Status card) cards) ->
                    0 <= Position c < GoInt.max_int) as Hrange.
  { intros c Hc. split; [|now apply Hmax].
    apply Hn. now apply filter_In in Hc. }
  destruct (maxPosLoop_spec (Status card) cards (-1)) as (H1 & H2 & _).
  cbv zeta in H1, H2.
  unfold createCards. cbn [snd Status setID].
  rewrite (maxPosLoop_no_overflow _ _ Hrange).
  split.
  - intros status. rewrite column_app. unfold column at 2.
    cbn [filter Status setPosition setID].
    destruct (String.eqb_spec (Status card) status) as [E|E].
    + subst status. rewrite map_app. cbn [map Position setPosition].
      apply NoDup_snoc; [apply Hd|].
      intros F. apply in_map_iff in F as (x & Hx & Hin).
      specialize (H2 x Hin). lia.
    + rewrite app_nil_r. apply Hd.
  - intros c Hin. apply in_app_or in Hin as [Hin|[<-|[]]].
    + now apply Hn.
    + cbn [Position setPosition]. lia.
Qed.

Lemma update_positions id update cards cards' :
  unique_ids cards -> positions_distinct cards -> positions_nonneg cards ->
  updateCards id update cards = Done cards' ->
  positions_distinct cards' /\ positions_nonneg cards'.
Proof.
  intros Hu Hd Hn Hup.
  destruct (in_dec string_dec id (map ID cards)) as [Hin|Hin].
  2:{ apply replaceFields_None with (u := update) in Hin.
      unfold updateCards in Hup. rewrite Hin in Hup. discriminate. }
  apply id_in_split in Hin as (pre & c & post & -> & Hpre & Hid).
  rewrite updateCards_split in Hup by assumption.
  inversion Hup as [E]. clear Hup E.
  set (mc := overwrite c update) in *.
  assert (ID mc = id) as Hmid by (unfold mc; now rewrite overwrite_eq).
  assert (Status mc = Status update) as Hmst
    by (unfold mc; now rewrite overwrite_eq).
  assert (Position mc = Position update) as Hmpos
    by (unfold mc; now rewrite overwrite_eq).
  assert (unique_ids (pre ++ mc :: post)) as Hu1.
  { unfold unique_ids in *. rewrite map_app in *. cbn [map] in *.
    now rewrite Hmid, <- Hid. }
  assert (forall status, status <> Status update ->
            NoDup (map Position (column status (pre ++ mc :: post)))) as Hoth.
  { intros status Hne. rewrite column_skip by congruence.
    specialize (Hd status). rewrite column_app, map_app in Hd.
    rewrite map_app. unfold column at 2 in Hd. cbn [filter] in Hd.
    destruct (Status c =? status)%string; [|exact Hd].
    cbn [map] in Hd. now apply NoDup_remove_1 in Hd. }
  destruct (moved (Status c) (Position c) update) eqn:Hm.
  - (* the handler repositions *)
    apply (conj (A := positions_distinct _)).
    + intros status. destruct (string_dec status (Status update)) as [->|Hne].
      * now apply target_column_dense.
      * rewrite other_column_untouched by assumption. now apply Hoth.
    + intros x Hx.
      destruct (string_dec (Status x) (Status update)) as [Ex|Ex].
      * apply (dense_bound
                 (column (Status update)
                    (map (relabel 0
                            (newOrderOf (pre ++ mc :: post) id update mc)
                            (Status update)) (pre ++ mc :: post)))).
        -- now apply target_column_dense.
        -- apply filter_In. split; [assumption | now apply String.eqb_eq].
      * apply in_map_iff in Hx as (y & <- & Hy).
        pose proof (relabel_column_iff pre post mc id update Hu1 Hmid Hmst
                      y (Status update) Hy) as Hcol.
        destruct (String.eqb_spec (Status y) (Status update)) as [Ey|Ey].
        -- apply String.eqb_eq in Hcol. contradiction.
        -- rewrite relabel_notin.
           ++ apply in_app_or in Hy as [Hy|[<-|Hy]].
              ** apply Hn, in_or_app; now left.
              ** contradiction.
              ** apply Hn, in_or_app; right; now right.
           ++ intros F.
              now apply (touched_iff pre post mc id update Hu1 Hmid Hmst y Hy)
                in F.
  - (* same status, same position: no repositioning *)
    unfold moved in Hm. apply orb_false_elim in Hm as [Es Ep].
    apply negb_false_iff, String.eqb_eq in Es.
    apply negb_false_iff, Z.eqb_eq in Ep.
    split.
    + intros status.
      rewrite (column_positions_replace status pre c mc post);
        [apply Hd | congruence | congruence].
    + intros x Hx. apply in_app_or in Hx as [Hx|[<-|Hx]].
      * apply Hn, in_or_app; now left.
      * rewrite Hmpos, <- Ep. apply Hn, in_or_app; right; now left.
      * apply Hn, in_or_app; right; now right.
Qed.

Lemma delete_positions id cards cards' :
  positions_distinct cards -> positions_nonneg cards ->
  deleteCards id cards = Done cards' ->
  positions_distinct cards' /\ positions_nonneg cards'.
Proof.
  intros Hd Hn Hdel. unfold deleteCards in Hdel.
  destruct (_ =? _) in Hdel; inversion Hdel as [E]. clear Hdel E. split.
  - intros status. unfold column. rewrite filter_swap.
    apply NoDup_map_filter, Hd.
  - intros c Hc. apply filter_In in Hc as [Hc _]. now apply Hn.
Qed.

(** X18: what survives of the dense ordering under every operation.  On a
    board of distinct IDs where no two cards of one status share a
    position and no position is negative, each of create (with a new ID,
    and the column's positions below the largest [int]), update and delete
    leaves a board with the same three properties: the handlers can leave
    gaps in a column, never a duplicate position. *)
Theorem X18_positions_stay_distinct cards :
  unique_ids cards -> positions_distinct cards -> positions_nonneg cards ->
  (forall newID card,
     ~ In newID (map ID cards) ->
     (forall c, In c (column (Status card) cards) ->
                Position c < GoInt.max_int) ->
     unique_ids (snd (createCards newID card cards)) /\
     positions_distinct (snd (createCards newID card cards)) /\
     positions_nonneg (snd (createCards newID card cards))) /\
  (forall id update cards',
     updateCards id update cards = Done cards' ->
     unique_ids cards' /\ positions_distinct cards' /\
     positions_nonneg cards') /\
  (forall id cards',
     deleteCards id cards = Done cards' ->
     unique_ids cards' /\ positions_distinct cards' /\
     positions_nonneg cards').
Proof.
  intros Hu Hd Hn. split; [|split].
  - intros newID card Hfresh Hmax.
    split; [now apply create_unique | now apply create_positions].
  - intros id update cards' Hup. split.
    + unfold unique_ids. now rewrite (updateCards_ids _ _ _ _ Hup).
    + now apply (update_positions id update cards).
  - intros id cards' Hdel. split.
    + unfold deleteCards in Hdel.
      destruct (_ =? _) in Hdel; inversion Hdel. now apply NoDup_map_filter.
    + now apply (delete_positions id cards).
Qed.

Lemma X18_positions_stay_distinct_witness :
  positions_distinct Examples.deletedB /\
  positions_distinct
    (Examples.cardsOf
       (updateCards "A" (Examples.req "Doing" 7) Examples.deletedB)).
Proof.
  assert (unique_ids Examples.abc) as Hu by distinct_ids.
  assert (positions_distinct Examples.abc /\ positions_nonneg Examples.abc)
    as [Hd Hn].
  { split.
    - intros status. apply NoDup_map_filter.
      cbn [map Position Examples.abc].
      repeat (constructor; [cbn [In]; intuition discriminate|]). constructor.
    - intros c [<-|[<-|[<-|[]]]]; cbn; lia. }
  destruct (X18_positions_stay_distinct Examples.abc Hu Hd Hn)
    as (_ & _ & Hdel).
  destruct (Hdel "B" Examples.deletedB eq_refl) as (Hu' & Hd' & Hn').
  split; [exact Hd'|].
  destruct (X18_positions_stay_distinct Examples.deletedB Hu' Hd' Hn')
    as (_ & Hupd & _).
  exact (proj1 (proj2 (Hupd "A" (Examples.req "Doing" 7) _ eq_refl))).
Defined.
